(** * Dr. Macadamia: the knowledge base of [app.py] and its four queries

    [app.py] loads a table of diseases (name, symptoms, treatments) into a
    Datalog engine, interning every name as a 32-bit identifier, and answers
    four queries from the two fact relations [has_symptom] and [treated_with]
    and the derived relation [cures_symptom].

    The development follows the script top to bottom: Python values and
    [str.strip], the interning helper [get_id], the loader [load_kb], the
    answers of the engine, [parse_results], the two button handlers, and
    then the properties of the loaded knowledge base. *)

From Stdlib Require Import ZArith Ascii DecimalString.
From stdpp Require Import gmap strings list sorting.

Set Warnings "-register-all,-clear-no-such-hyp".
Set Default Proof Using "Type".
Local Open Scope string_scope.
Local Open Scope list_scope.
Local Open Scope Z_scope.

(** ** Python values *)

Module Py.

(** A [str] is a sequence of code points; a [string] holds the code points
    below 256, in order, so that comparing two of them by [String.compare]
    is Python's comparison of the two [str]. *)

(** [str.isspace] on the code points below 256. *)
Definition isspace (c : ascii) : bool :=
  let n := N_of_ascii c in
  ((9 <=? n) && (n <=? 13) || (28 <=? n) && (n <=? 32)
   || (n =? 133) || (n =? 160))%N.

Definition single_quote : ascii := ascii_of_nat 39.
Definition double_quote : ascii := ascii_of_nat 34.

Fixpoint lstrip (p : ascii -> bool) (s : string) : string :=
  match s with
  | String c s' => if p c then lstrip p s' else s
  | EmptyString => EmptyString
  end.

Definition rstrip (p : ascii -> bool) (s : string) : string :=
  String.rev (lstrip p (String.rev s)).

(** [s.strip()] is [strip isspace s]; [s.strip(c)] for a one-character
    [c] is [strip (Ascii.eqb c) s]. *)
Definition strip (p : ascii -> bool) (s : string) : string :=
  rstrip p (lstrip p s).

(** The values [ast.literal_eval] can hand to the loader.  Floats, bytes,
    dicts and sets are left out: as elements they behave like [PyInt]
    (not a [str]), and the table holds none. *)
Inductive pyval :=
| PyNone
| PyBool (b : bool)
| PyInt (z : Z)
| PyStr (s : string)
| PyList (l : list pyval)
| PyTuple (l : list pyval).

(** [bool(v)]. *)
Definition truthy (v : pyval) : bool :=
  match v with
  | PyNone => false
  | PyBool b => b
  | PyInt z => negb (z =? 0)%Z
  | PyStr s => negb (String.eqb s EmptyString)
  | PyList l | PyTuple l => negb (Nat.eqb (List.length l) 0)
  end.

Fixpoint chars (s : string) : list pyval :=
  match s with
  | EmptyString => []
  | String c s' => PyStr (String c EmptyString) :: chars s'
  end.

(** [iter(v)]: the elements a [for] loop visits, [None] when [v] is not
    iterable ([TypeError]). *)
Definition iter (v : pyval) : option (list pyval) :=
  match v with
  | PyStr s => Some (chars s)
  | PyList l | PyTuple l => Some l
  | PyNone | PyBool _ | PyInt _ => None
  end.

Inductive exn := AttributeError | TypeError | ValueError | Z3Exception.

Inductive res (A : Type) :=
| Ret (a : A)
| Raise (e : exn).
Arguments Ret {A} a.
Arguments Raise {A} e.

(** [sorted(list(X))] for a set of [str]. *)
Definition sorted (X : gset string) : list string :=
  merge_sort String.le (elements X).

(** [sep.join(l)]. *)
Fixpoint join (sep : string) (l : list string) : string :=
  match l with
  | [] => EmptyString
  | [x] => x
  | x :: l' => x +:+ sep +:+ join sep l'
  end.

End Py.
Import Py.

(** ** The engine: z3's [Fixedpoint] with [engine='datalog']

    The engine is a library; it is modelled by what a Datalog query
    answers.  A relation over [Thing = BitVecSort(32)] is a finite set of
    pairs of numerals. *)

Module Z3.

Definition BitVecVal (n : Z) : Z := n mod 2 ^ 32.

(** [str(v)] of a numeral. *)
Definition str (v : Z) : string := NilZero.string_of_int (Z.to_int v).

Inductive expr :=
| BVNum (v : Z)
| BoundVar (i : nat)
| App (f : string) (args : list expr).

Definition is_bv_value (e : expr) : bool :=
  match e with BVNum _ => true | _ => false end.

Definition children (e : expr) : list expr :=
  match e with App _ args => args | _ => [] end.

(** An argument of a relation call: a declared constant such as
    [Const('d', Thing)], or whatever [get_id] returned. *)
Inductive arg :=
| AConst (x : string)
| AId (i : option Z).

Inductive term :=
| TVar (x : string)
| TBV (v : Z).

(** [BitVecSortRef.cast]: an expression is kept, anything else goes through
    [BitVecVal]; [BitVecVal(None, Thing)] is a [Z3Exception]. *)
Definition cast (a : arg) : res term :=
  match a with
  | AConst x => Ret (TVar x)
  | AId (Some v) => Ret (TBV v)
  | AId None => Raise Z3Exception
  end.

(** The three relations declared with [Function(name, Thing, Thing,
    BoolSort())]. *)
Inductive func_decl := has_symptom_rel | treated_with_rel | cures_symptom_rel.

Record atom := Atom { a_rel : func_decl; a_fst : term; a_snd : term }.

(** [f(a, b)] for a relation [f]. *)
Definition call (f : func_decl) (a b : arg) : res atom :=
  match cast a with
  | Raise e => Raise e
  | Ret t1 =>
      match cast b with
      | Raise e => Raise e
      | Ret t2 => Ret (Atom f t1 t2)
      end
  end.

Inductive check_sat := sat | unsat.

Global Instance check_sat_eq_dec : EqDecision check_sat.
Proof. solve_decision. Defined.

(** The bindings of the free variables under which a tuple matches. *)
Definition match_term (t : term) (v : Z) : option (list Z) :=
  match t with
  | TVar _ => Some [v]
  | TBV k => if decide (k = v) then Some [] else None
  end.

Definition match_atom (q : atom) (p : Z * Z) : option (list Z) :=
  match a_fst q, a_snd q with
  | TVar x, TVar y =>
      if decide (x = y)
      then (if decide (p.1 = p.2) then Some [p.1] else None)
      else Some [p.1; p.2]
  | t1, t2 =>
      match match_term t1 p.1, match_term t2 p.2 with
      | Some l1, Some l2 => Some (l1 ++ l2)
      | _, _ => None
      end
  end.

Definition solve (tuples : list (Z * Z)) (q : atom) : list (list Z) :=
  omap (match_atom q) tuples.

(** [fp.get_answer()]: the answer relation as a formula over the bound
    variables, a disjunction of conjunctions of [Var(i) == value]. *)
Definition eq_formula (i : nat) (v : Z) : expr :=
  App "=" [BoundVar i; BVNum v].

Definition row_formula (vals : list Z) : expr :=
  match imap eq_formula vals with
  | [] => App "true" []
  | [e] => e
  | es => App "and" es
  end.

Definition to_formula (rows : list (list Z)) : expr :=
  match row_formula <$> rows with
  | [] => App "false" []
  | [e] => e
  | es => App "or" es
  end.

End Z3.
Import Z3.

(** ** The state built by [load_kb] *)

Record kb := KB {
  str_to_id : gmap string Z;
  id_to_str : gmap Z string;
  counter : Z;
  has_symptom : list (Z * Z);
  treated_with : list (Z * Z);
  all_symptoms : gset string;
  all_diseases : gset string
}.

(** The closures of [load_kb] update the dictionaries and the counter in
    place and may raise: a computation takes the state and returns a
    result or an exception together with the state it leaves behind. *)
Definition M (A : Type) : Type := kb -> res A * kb.

Definition ret {A} (a : A) : M A := fun st => (Ret a, st).
Definition raise {A} (e : exn) : M A := fun st => (Raise e, st).
Definition bind {A B} (m : M A) (k : A -> M B) : M B :=
  fun st =>
    match m st with
    | (Ret a, st') => k a st'
    | (Raise e, st') => (Raise e, st')
    end.
Definition lift {A} (r : res A) : M A := fun st => (r, st).
Definition modify (f : kb -> kb) : M unit := fun st => (Ret tt, f st).

Notation "'let!' x ':=' m 'in' k" := (bind m (fun x => k))
  (at level 10, x name, m at level 100, k at level 200).
Notation "'do!' m 'in' k" := (bind m (fun _ => k))
  (at level 10, m at level 100, k at level 200).

(** A [for] loop whose body may raise. *)
Fixpoint for_each {A} (body : A -> M unit) (l : list A) : M unit :=
  match l with
  | [] => ret tt
  | x :: l' => do! body x in for_each body l'
  end.

(** [try: ... except: pass]: the exception is dropped, the updates made
    before it stay. *)
Definition try_pass (m : M unit) (st : kb) : kb := snd (m st).

Definition clean (text : string) : string :=
  strip (Ascii.eqb double_quote)
    (strip (Ascii.eqb single_quote) (strip isspace text)).

Definition intern (name : string) (st : kb) : kb :=
  KB (<[name := BitVecVal (counter st)]> (str_to_id st))
     (<[counter st := name]> (id_to_str st))
     (counter st + 1)
     (has_symptom st) (treated_with st) (all_symptoms st) (all_diseases st).

Definition get_id (text : pyval) : M (option Z) :=
  fun st =>
    if negb (truthy text) then (Ret None, st)
    else
      match text with
      | PyStr t =>
          match str_to_id st !! clean t with
          | Some v => (Ret (Some v), st)
          | None => (Ret (Some (BitVecVal (counter st))), intern (clean t) st)
          end
      | _ => raise AttributeError st
      end.

(** [get_name] of the numeral [v]: [val.as_long()] is [v]. *)
Definition get_name (st : kb) (v : Z) : string :=
  default (str v) (id_to_str st !! v).

Definition add_has_symptom (p : Z * Z) (st : kb) : kb :=
  KB (str_to_id st) (id_to_str st) (counter st)
     (has_symptom st ++ [p]) (treated_with st)
     (all_symptoms st) (all_diseases st).

Definition add_treated_with (p : Z * Z) (st : kb) : kb :=
  KB (str_to_id st) (id_to_str st) (counter st)
     (has_symptom st) (treated_with st ++ [p])
     (all_symptoms st) (all_diseases st).

(** [all_symptoms.add(t)] and [all_diseases.add(t)]. *)
Definition add_symptom (t : string) (st : kb) : kb :=
  KB (str_to_id st) (id_to_str st) (counter st)
     (has_symptom st) (treated_with st)
     ({[t]} ∪ all_symptoms st) (all_diseases st).

Definition add_disease (t : string) (st : kb) : kb :=
  KB (str_to_id st) (id_to_str st) (counter st)
     (has_symptom st) (treated_with st)
     (all_symptoms st) ({[t]} ∪ all_diseases st).

(** [fp.fact(has_symptom(a, b))] and [fp.fact(treated_with(a, b))]. *)
Definition fact (q : atom) : M unit :=
  match q with
  | Atom has_symptom_rel (TBV a) (TBV b) => modify (add_has_symptom (a, b))
  | Atom treated_with_rel (TBV a) (TBV b) => modify (add_treated_with (a, b))
  | _ => ret tt
  end.

(** [all_symptoms.add(s)] is reached with a [str] only: for any other
    element [get_id] or the relation call before it has raised. *)
Definition add_symptom_name (s : pyval) : M unit :=
  match s with
  | PyStr t => modify (add_symptom t)
  | _ => ret tt
  end.

(** The rule [cures_symptom(t, s) :- treated_with(t, d), has_symptom(d, s)]. *)
Definition cures_symptom (st : kb) : list (Z * Z) :=
  '(t, d) ← treated_with st;
  '(d', s) ← has_symptom st;
  if decide (d = d') then [(t, s)] else [].

Definition tuples (st : kb) (f : func_decl) : list (Z * Z) :=
  match f with
  | has_symptom_rel => has_symptom st
  | treated_with_rel => treated_with st
  | cures_symptom_rel => cures_symptom st
  end.

(** [fp.query(q)] and the [fp.get_answer()] that follows it. *)
Definition query (st : kb) (q : atom) : check_sat :=
  match solve (tuples st (a_rel q)) q with
  | [] => unsat
  | _ :: _ => sat
  end.

Definition get_answer (st : kb) (q : atom) : expr :=
  to_formula (solve (tuples st (a_rel q)) q).

(** The inner [collect] of [parse_results]; the loop runs over
    [children e], which is [args] for an application and empty otherwise. *)
Fixpoint collect (st : kb) (e : expr) (results : gset string) : gset string :=
  let results :=
    if is_bv_value e
    then match e with BVNum v => {[get_name st v]} ∪ results | _ => results end
    else results in
  match e with
  | App _ args => fold_left (fun acc child => collect st child acc) args results
  | _ => results
  end.

Definition parse_results (st : kb) (ans_obj : expr) : list string :=
  sorted (collect st ans_obj ∅).

(** ** The loader *)

Record row := Row {
  row_name : string;
  row_symptoms : option string;
  row_treatments : option string
}.

Section Loader.

(** [ast.literal_eval]: [None] when it raises. *)
Variable literal_eval : string -> option pyval.

(** [if row.get(col): try: for x in ast.literal_eval(row[col]): body(x)
    except: pass]. *)
Definition load_cell (cell : option string) (body : pyval -> M unit)
    (st : kb) : kb :=
  match cell with
  | None => st
  | Some text =>
      if String.eqb text EmptyString then st
      else
        match literal_eval text with
        | None => st
        | Some v =>
            match iter v with
            | None => st
            | Some items => try_pass (for_each body items) st
            end
        end
  end.

Definition symptom_body (disease_id : option Z) (s : pyval) : M unit :=
  let! s_id := get_id s in
  let! q := lift (call has_symptom_rel (AId disease_id) (AId s_id)) in
  do! fact q in
  add_symptom_name s.

Definition treatment_body (disease_id : option Z) (t : pyval) : M unit :=
  let! t_id := get_id t in
  let! q := lift (call treated_with_rel (AId t_id) (AId disease_id)) in
  fact q.

(** The body of [for row in reader]; [get_id] of a [str] does not raise. *)
Definition load_row (r : row) (st : kb) : kb :=
  let '(disease_id, st) :=
    match get_id (PyStr (row_name r)) st with
    | (Ret i, st') => (i, st')
    | (Raise _, st') => (None, st')
    end in
  let st := add_disease (row_name r) st in
  let st := load_cell (row_symptoms r) (symptom_body disease_id) st in
  load_cell (row_treatments r) (treatment_body disease_id) st.

Definition init : kb := KB ∅ ∅ 1 [] [] ∅ ∅.

Definition load_rows (rows : list row) : kb :=
  fold_left (fun st r => load_row r st) rows init.

End Loader.

(** The two lists handed to the select boxes. *)
Definition symptoms (st : kb) : list string := sorted (all_symptoms st).
Definition diseases (st : kb) : list string := sorted (all_diseases st).

(** The components of the tuple [load_kb] returns: the engine with the
    state its closures share, the three relations, the two closures, the
    two lists and the sort. *)
Inductive value :=
| VNone
| VFixedpoint (st : kb)
| VFunction (f : func_decl)
| VGetId
| VGetName
| VList (l : list string)
| VSort.

(** [file] is the content of [macadamia.csv] as [csv.DictReader] yields
    it, [None] when the file does not exist: [FileNotFoundError] is caught
    and eight [None] are returned; otherwise the nine components are. *)
Definition load_kb (literal_eval : string -> option pyval)
    (file : option (list row)) : list value :=
  match file with
  | None => [VNone; VNone; VNone; VNone; VNone; VNone; VNone; VNone]
  | Some rows =>
      let st := load_rows literal_eval rows in
      [VFixedpoint st; VFunction has_symptom_rel; VFunction treated_with_rel;
       VFunction cures_symptom_rel; VGetId; VGetName;
       VList (symptoms st); VList (diseases st); VSort]
  end.

(** [x1, ..., xn = t]: a [ValueError] unless [t] has [n] components. *)
Definition unpack (n : nat) (t : list value) : res (list value) :=
  if Nat.eqb (List.length t) n then Ret t else Raise ValueError.

(** ** The four queries *)

(** [r = fp.query(f(a, b))] followed by [parse_results(fp.get_answer())]
    when [r == sat]; [None] stands for the other branch. *)
Definition ask (f : func_decl) (a b : arg) : M (option (list string)) :=
  let! q := lift (call f a b) in
  fun st =>
    match query st q with
    | sat => (Ret (Some (parse_results st (get_answer st q))), st)
    | unsat => (Ret None, st)
    end.

(** What a select box holds: [None] or one of its options. *)
Definition selected (sel : option string) : pyval :=
  match sel with
  | None => PyNone
  | Some s => PyStr s
  end.

Definition diseasesWith (symptom : option string) : M (list string) :=
  let! s_id := get_id (selected symptom) in
  let! r := ask has_symptom_rel (AConst "d") (AId s_id) in
  ret (default [] r).

Definition treatmentsFor (symptom : option string) : M (list string) :=
  let! s_id := get_id (selected symptom) in
  let! r := ask cures_symptom_rel (AConst "t") (AId s_id) in
  ret (default [] r).

Definition symptomsOf (disease : option string) : M (list string) :=
  let! d_id := get_id (selected disease) in
  let! r := ask has_symptom_rel (AId d_id) (AConst "s") in
  ret (default [] r).

Definition treatmentsOf (disease : option string) : M (list string) :=
  let! d_id := get_id (selected disease) in
  let! r := ask treated_with_rel (AConst "t") (AId d_id) in
  ret (default [] r).

Inductive op := SymptomsOf | TreatmentsOf | DiseasesWith | TreatmentsFor.

Definition run_op (o : op) : option string -> M (list string) :=
  match o with
  | SymptomsOf => symptomsOf
  | TreatmentsOf => treatmentsOf
  | DiseasesWith => diseasesWith
  | TreatmentsFor => treatmentsFor
  end.

(** ** The page *)

Inductive ui :=
| st_divider
| st_subheader (body : string)
| st_error (body : string)
| st_warning (body : string)
| st_success (body : string)
| st_info (body : string)
| st_markdown (body : string)
| st_write (body : string)
| st_exception (e : exn).

(** One run of the script: which button was pressed, with the value of
    its select box. *)
Inductive event :=
| Idle
| DiagnoseProblem (selected_symptom : option string)
| GetInfo (selected_disease : option string).

Definition on_diagnose (selected_symptom : option string) (st : kb)
    : list ui * kb :=
  match get_id (selected selected_symptom) st with
  | (Raise e, st) => ([st_divider; st_exception e], st)
  | (Ret s_id, st) =>
      match ask has_symptom_rel (AConst "d") (AId s_id) st with
      | (Raise e, st) => ([st_divider; st_exception e], st)
      | (Ret diag_result, st) =>
          let shown :=
            match diag_result with
            | Some diseases_found =>
                (fun d => st_error ("**Potential Cause:** " +:+ d))
                  <$> diseases_found
            | None => [st_warning "Unknown disease."]
            end in
          let found_disease :=
            match diag_result with
            | Some (_ :: _) => true
            | _ => false
            end in
          if found_disease then
            match ask cures_symptom_rel (AConst "t") (AId s_id) st with
            | (Raise e, st) => (st_divider :: shown ++ [st_exception e], st)
            | (Ret cure_result, st) =>
                let cure :=
                  match cure_result with
                  | Some [] => st_info "No specific chemical treatment listed."
                  | Some treatments =>
                      st_success ("**Recommended Treatments:** "
                                  +:+ join ", " treatments)
                  | None => st_info "No cure found in database."
                  end in
                (st_divider :: shown ++ [cure], st)
            end
          else (st_divider :: shown, st)
      end
  end.

Definition on_get_info (selected_disease : option string) (st : kb)
    : list ui * kb :=
  match get_id (selected selected_disease) st with
  | (Raise e, st) => ([st_divider; st_exception e], st)
  | (Ret d_id, st) =>
      match ask has_symptom_rel (AId d_id) (AConst "s") st with
      | (Raise e, st) => ([st_divider; st_exception e], st)
      | (Ret sym_result, st) =>
          let syms :=
            st_subheader "Symptoms" ::
            match sym_result with
            | Some found_symptoms =>
                (fun sym => st_markdown ("- " +:+ sym)) <$> found_symptoms
            | None => [st_write "No symptoms recorded."]
            end in
          match ask treated_with_rel (AConst "t") (AId d_id) st with
          | (Raise e, st) => (st_divider :: syms ++ [st_exception e], st)
          | (Ret treat_result, st) =>
              let treats :=
                st_subheader "Treatments" ::
                match treat_result with
                | Some found_treatments => st_success <$> found_treatments
                | None => [st_warning "No treatments recorded."]
                end in
              (st_divider :: syms ++ treats, st)
          end
      end
  end.

Definition handle (ev : event) (st : kb) : list ui * kb :=
  match ev with
  | Idle => ([], st)
  | DiagnoseProblem sel => on_diagnose sel st
  | GetInfo sel => on_get_info sel st
  end.

Definition not_found_message : string :=
  "Error: 'macadamia.csv' file not found.".

(** What one run of the script renders below the static widgets: the
    result of [load_kb] is unpacked into nine names, of which [fp] is the
    first; then [if not fp: st.error(...); st.stop()], then the handler of
    the pressed button.  An exception that nothing catches ends the run
    and is shown in its place. *)
Definition script (literal_eval : string -> option pyval)
    (file : option (list row)) (ev : event) : list ui :=
  match unpack 9 (load_kb literal_eval file) with
  | Raise e => [st_exception e]
  | Ret t =>
      match t with
      | VFixedpoint st :: _ => (handle ev st).1
      | _ => [st_error not_found_message]
      end
  end.

(** ** List literals

    A reader for the literals the table is written in: a bracketed,
    comma-separated list of quoted strings without escapes and of unsigned
    decimal integers, or one such element alone.  On these texts it
    returns what [ast.literal_eval] returns; it is used to run the loader
    on concrete tables. *)

Module Literal.

Definition is_blank (c : ascii) : bool :=
  Ascii.eqb c " "%char || Ascii.eqb c (ascii_of_nat 9).

Definition is_quote (c : ascii) : bool :=
  Ascii.eqb c single_quote || Ascii.eqb c double_quote.

Definition is_digit (c : ascii) : bool :=
  let n := N_of_ascii c in ((48 <=? n) && (n <=? 57))%N.

Definition ends_line (c : ascii) : bool :=
  Ascii.eqb c (ascii_of_nat 10) || Ascii.eqb c (ascii_of_nat 13)
  || Ascii.eqb c (ascii_of_nat 92).

Fixpoint str_body (q : ascii) (s : string) : option (string * string) :=
  match s with
  | EmptyString => None
  | String c s' =>
      if Ascii.eqb c q then Some (EmptyString, s')
      else if ends_line c then None
      else
        match str_body q s' with
        | Some (b, rest) => Some (String c b, rest)
        | None => None
        end
  end.

Fixpoint digits (acc : Z) (s : string) : Z * string :=
  match s with
  | String c s' =>
      if is_digit c
      then digits (10 * acc + (Z.of_N (N_of_ascii c) - 48)) s'
      else (acc, s)
  | EmptyString => (acc, s)
  end.

Definition element (s : string) : option (pyval * string) :=
  match s with
  | EmptyString => None
  | String c s' =>
      if is_quote c then
        match str_body c s' with
        | Some (b, rest) => Some (PyStr b, rest)
        | None => None
        end
      else if is_digit c then
        let '(z, rest) := digits 0 s in
        if Ascii.eqb c "0"%char && negb (String.eqb rest s') then None
        else Some (PyInt z, rest)
      else None
  end.

(** The elements after the opening bracket, or after a comma. *)
Fixpoint items (fuel : nat) (s : string) : option (list pyval * string) :=
  match fuel with
  | O => None
  | S fuel =>
      match lstrip is_blank s with
      | String "]"%char rest => Some ([], rest)
      | s1 =>
          match element s1 with
          | None => None
          | Some (v, s2) =>
              match lstrip is_blank s2 with
              | String "]"%char rest => Some ([v], rest)
              | String ","%char s3 =>
                  match items fuel s3 with
                  | Some (l, rest) => Some (v :: l, rest)
                  | None => None
                  end
              | _ => None
              end
          end
      end
  end.

Definition literal_eval (text : string) : option pyval :=
  match lstrip is_blank text with
  | String "["%char s =>
      match items (S (String.length s)) s with
      | Some (l, rest) =>
          if String.eqb (lstrip is_blank rest) EmptyString
          then Some (PyList l) else None
      | None => None
      end
  | s =>
      match element s with
      | Some (v, rest) =>
          if String.eqb (lstrip is_blank rest) EmptyString
          then Some v else None
      | None => None
      end
  end.

End Literal.

(** ** Tables used below *)

Definition spec_table : list row :=
  [ Row "Anthracnose" (Some "['leaf spot','dieback']")
        (Some "['copper fungicide']");
    Row "Husk Rot" (Some "['leaf spot']") (Some "['fungicide X']") ].

Definition spec_kb : kb := load_rows Literal.literal_eval spec_table.

(** * Notions used in the statements *)

Definition names (st : kb) (l : list Z) : gset string :=
  list_to_set (get_name st <$> l).

(** The numerals an operation collects for the identifier [k]. *)
Definition answers (o : op) (st : kb) (k : Z) : list Z :=
  match o with
  | SymptomsOf => (filter (fun p : Z * Z => p.1 = k) (has_symptom st)).*2
  | TreatmentsOf => (filter (fun p : Z * Z => p.2 = k) (treated_with st)).*1
  | DiseasesWith => (filter (fun p : Z * Z => p.2 = k) (has_symptom st)).*1
  | TreatmentsFor => (filter (fun p : Z * Z => p.2 = k) (cures_symptom st)).*1
  end.

(** The atom an operation hands to [fp.query] for the identifier [k]. *)
Definition op_atom (o : op) (k : Z) : atom :=
  match o with
  | SymptomsOf => Atom has_symptom_rel (TBV k) (TVar "s")
  | TreatmentsOf => Atom treated_with_rel (TVar "t") (TBV k)
  | DiseasesWith => Atom has_symptom_rel (TVar "d") (TBV k)
  | TreatmentsFor => Atom cures_symptom_rel (TVar "t") (TBV k)
  end.

Definition lookup_or_intern (n : string) (st : kb) : Z * kb :=
  match str_to_id st !! n with
  | Some v => (v, st)
  | None => (BitVecVal (counter st), intern n st)
  end.

(** An element the loader accepts: a non-empty [str]. *)
Definition element_name (x : pyval) : option string :=
  match x with
  | PyStr t => if String.eqb t EmptyString then None else Some t
  | _ => None
  end.

(** The state in which the loops of a row start, and the identifier of
    its disease. *)
Definition row_start (r : row) (st : kb) : option Z * kb :=
  if String.eqb (row_name r) EmptyString
  then (None, add_disease (row_name r) st)
  else (Some (lookup_or_intern (clean (row_name r)) st).1,
        add_disease (row_name r) (lookup_or_intern (clean (row_name r)) st).2).

Definition is_id (st : kb) (v : Z) : Prop :=
  ∃ n, str_to_id st !! n = Some v.

Record kb_inv (st : kb) : Prop := {
  inv_counter : 1 ≤ counter st;
  inv_str_to_id : ∀ n v, str_to_id st !! n = Some v ->
    ∃ c, 1 ≤ c < counter st ∧ v = BitVecVal c ∧ id_to_str st !! c = Some n;
  inv_id_to_str : ∀ c n, id_to_str st !! c = Some n ->
    1 ≤ c < counter st ∧ str_to_id st !! n = Some (BitVecVal c);
  inv_has_symptom : ∀ p, p ∈ has_symptom st -> is_id st p.1 ∧ is_id st p.2;
  inv_treated_with : ∀ p, p ∈ treated_with st -> is_id st p.1 ∧ is_id st p.2;
  inv_clean : ∀ n, is_Some (str_to_id st !! n) ->
    ∃ raw, raw ≠ EmptyString ∧ n = clean raw;
  inv_all_symptoms : ∀ s, s ∈ all_symptoms st ->
    s ≠ EmptyString ∧ is_Some (str_to_id st !! clean s);
  inv_all_diseases : ∀ d, d ∈ all_diseases st ->
    d = EmptyString ∨ is_Some (str_to_id st !! clean d)
}.

(** Names are never forgotten nor renumbered. *)
Definition grows (st st' : kb) : Prop := str_to_id st ⊆ str_to_id st'.

(** The invariant of the two loops of a row: the tables are consistent
    and the identifier of the row's disease is still known. *)
Definition row_inv (did : option Z) (st : kb) : Prop :=
  kb_inv st ∧ ∀ d, did = Some d -> is_id st d.

Definition keeps (P : kb -> Prop) : relation kb := fun st st' => P st -> P st'.

(** Nothing recorded is ever dropped. *)
Definition extends (st st' : kb) : Prop :=
  grows st st' ∧ all_symptoms st ⊆ all_symptoms st'
  ∧ all_diseases st ⊆ all_diseases st'.

(** The symptom side of the state is untouched. *)
Definition same_symptoms (st st' : kb) : Prop :=
  has_symptom st' = has_symptom st ∧ all_symptoms st' = all_symptoms st.

Definition has (st : kb) (d s : string) : Prop :=
  ∃ a b, str_to_id st !! d = Some a ∧ str_to_id st !! s = Some b
         ∧ (a, b) ∈ has_symptom st.

Definition treats (st : kb) (t d : string) : Prop :=
  ∃ a b, str_to_id st !! t = Some a ∧ str_to_id st !! d = Some b
         ∧ (a, b) ∈ treated_with st.

(** What an operation asked about the name [n] answers with [x]. *)
Definition related (o : op) (st : kb) (n x : string) : Prop :=
  match o with
  | SymptomsOf => has st n x
  | TreatmentsOf => treats st x n
  | DiseasesWith => has st x n
  | TreatmentsFor => ∃ d, treats st x d ∧ has st d n
  end.

(** [[f(x) for x in l]] for an [f] that may raise. *)
Fixpoint map_m {A B} (f : A -> M B) (l : list A) : M (list B) :=
  match l with
  | [] => ret []
  | x :: l' =>
      let! y := f x in
      (let! ys := map_m f l' in ret (y :: ys))
  end.

(** From the words of the specification: the sorted, distinct union of
    [treatmentsOf(d)] over every [d] in [diseasesWith(s)]. *)
Definition union_of_treatmentsOf (symptom : option string) : M (list string) :=
  let! ds := diseasesWith symptom in
  let! ts := map_m (fun d => treatmentsOf (Some d)) ds in
  ret (sorted (list_to_set (concat ts))).

(** Tables for the cases the specification does not show: a cell that is
    not a list of strings, names written with blanks and quotes around
    them, and a name quoted with a blank inside the quotes. *)
Definition rust_table : list row :=
  [ Row "Rust" (Some "['leaf spot', 5, 'dieback']") (Some "['sulphur']") ].

Definition padded_table : list row :=
  [ Row "Husk Rot" (Some "[' leaf spot ']") (Some "['fungicide X']");
    Row "'Husk Rot' " (Some "['leaf spot']") None ].

Definition quoted_table : list row :=
  [ Row "'Husk Rot '" (Some "['leaf spot']") (Some "['fungicide X']") ].

Definition quoted_kb : kb := load_rows Literal.literal_eval quoted_table.

(** * Further notions *)

(** Identifiers are handed out from 1 upwards without gaps. *)
Definition dense (st : kb) : Prop :=
  1 ≤ counter st
  ∧ (∀ c, is_Some (id_to_str st !! c) ↔ 1 ≤ c < counter st)
  ∧ (∀ n, is_Some (str_to_id st !! n) ↔
          ∃ c, 1 ≤ c < counter st ∧ id_to_str st !! c = Some n)
  ∧ Z.of_nat (size (str_to_id st)) = counter st - 1.

(** What the two relations and the two lists of names say about each
    other. *)
Definition names_disease (st : kb) (a : Z) : Prop :=
  ∃ d, d ∈ all_diseases st ∧ d ≠ EmptyString
       ∧ str_to_id st !! clean d = Some a.

Definition names_symptom (st : kb) (b : Z) : Prop :=
  ∃ s, s ∈ all_symptoms st ∧ str_to_id st !! clean s = Some b.

Record kb_link (st : kb) : Prop := {
  link_symptom : ∀ s, s ∈ all_symptoms st ->
    ∃ a v, str_to_id st !! clean s = Some v ∧ (a, v) ∈ has_symptom st;
  link_has : ∀ a b, (a, b) ∈ has_symptom st ->
    names_disease st a ∧ names_symptom st b;
  link_treated : ∀ t d, (t, d) ∈ treated_with st -> names_disease st d
}.

Definition link_inv (did : option Z) (st : kb) : Prop :=
  kb_link st ∧ ∀ a, did = Some a -> names_disease st a.

(** Nothing but the interning tables has changed. *)
Definition same_records (st st' : kb) : Prop :=
  has_symptom st' = has_symptom st ∧ treated_with st' = treated_with st
  ∧ all_symptoms st' = all_symptoms st ∧ all_diseases st' = all_diseases st.


(** A cell the loader passes over: absent, empty, not a literal, or a
    literal that is not iterable. *)
Definition unreadable (literal_eval : string -> option pyval)
    (cell : option string) : Prop :=
  match cell with
  | None => True
  | Some text =>
      text = EmptyString ∨ literal_eval text = None
      ∨ ∃ v, literal_eval text = Some v ∧ iter v = None
  end.

(** The state keeps its records and interns at most [k] names. *)
Definition interns_at_most (k : Z) (st st' : kb) : Prop :=
  same_records st st' ∧ counter st ≤ counter st' ≤ counter st + k.

(** The relation [treated_with] is untouched. *)
Definition same_treated (st st' : kb) : Prop :=
  treated_with st' = treated_with st.

(** The query an operation makes once it has the identifier [k]. *)
Definition op_ask (o : op) (k : Z) : M (option (list string)) :=
  match o with
  | SymptomsOf => ask has_symptom_rel (AId (Some k)) (AConst "s")
  | TreatmentsOf => ask treated_with_rel (AConst "t") (AId (Some k))
  | DiseasesWith => ask has_symptom_rel (AConst "d") (AId (Some k))
  | TreatmentsFor => ask cures_symptom_rel (AConst "t") (AId (Some k))
  end.

(** What the two handlers render for the lists the queries return. *)
Definition diagnosis_page (ds ts : list string) : list ui :=
  st_divider ::
  match ds with
  | [] => [st_warning "Unknown disease."]
  | _ :: _ =>
      ((fun d => st_error ("**Potential Cause:** " +:+ d)) <$> ds)
      ++ [match ts with
          | [] => st_info "No cure found in database."
          | _ :: _ =>
              st_success ("**Recommended Treatments:** " +:+ join ", " ts)
          end]
  end.

Definition info_page (ss ts : list string) : list ui :=
  st_divider :: st_subheader "Symptoms" ::
  match ss with
  | [] => [st_write "No symptoms recorded."]
  | _ :: _ => (fun sym => st_markdown ("- " +:+ sym)) <$> ss
  end
  ++ st_subheader "Treatments" ::
  match ts with
  | [] => [st_warning "No treatments recorded."]
  | _ :: _ => st_success <$> ts
  end.

(** The events the page can produce on the state [st]: a select box
    holds nothing or one of its options. *)
Definition offered (st : kb) (ev : event) : Prop :=
  match ev with
  | Idle => True
  | DiagnoseProblem sel => sel = None ∨ ∃ s, sel = Some s ∧ s ∈ symptoms st
  | GetInfo sel => sel = None ∨ ∃ d, sel = Some d ∧ d ∈ diseases st
  end.

(** The script runs once per event on the state that
    [@st.cache_resource] keeps between the runs. *)
Fixpoint run_events (evs : list event) (st : kb) : list (list ui) * kb :=
  match evs with
  | [] => ([], st)
  | ev :: evs' =>
      let '(out, st1) := handle ev st in
      let '(outs, st2) := run_events evs' st1 in
      (out :: outs, st2)
  end.

(** The numerals that occur in an expression, at any depth. *)
Fixpoint numerals (e : expr) : list Z :=
  match e with
  | BVNum v => [v]
  | BoundVar _ => []
  | App _ args => concat (numerals <$> args)
  end.

(** Strings made of characters that satisfy [p] only. *)
Definition all_chars (p : ascii -> bool) (s : string) : bool :=
  forallb p (String.list_ascii_of_string s).

Definition first_char (s : string) : option ascii :=
  match s with
  | String c _ => Some c
  | EmptyString => None
  end.

Fixpoint last_char (s : string) : option ascii :=
  match s with
  | EmptyString => None
  | String c s' =>
      match s' with
      | EmptyString => Some c
      | String _ _ => last_char s'
      end
  end.

(** A character [get_id] never strips. *)
Definition bare (c : ascii) : bool :=
  negb (isspace c || Ascii.eqb single_quote c || Ascii.eqb double_quote c).

(** A string that neither starts nor ends with a blank or a quote. *)
Definition trimmed (s : string) : bool :=
  match first_char s, last_char s with
  | Some a, Some b => bare a && bare b
  | _, _ => true
  end.

(** [st'] is [st] after more loading: names keep their identifiers,
    the counter has not gone back, and no fact is lost. *)
Definition later (st st' : kb) : Prop :=
  grows st st' ∧ counter st ≤ counter st'
  ∧ has_symptom st ⊆ has_symptom st'
  ∧ treated_with st ⊆ treated_with st'.

(** The elements the loop over a cell visits: none when the cell is
    passed over. *)
Definition cell_items (literal_eval : string -> option pyval)
    (cell : option string) : list pyval :=
  match cell with
  | None => []
  | Some text =>
      if String.eqb text EmptyString then []
      else
        match literal_eval text with
        | None => []
        | Some v => default [] (iter v)
        end
  end.

(** The names a loop records: those before the first element that is
    not a non-empty string. *)
Fixpoint accepted (items : list pyval) : list string :=
  match items with
  | [] => []
  | x :: items' =>
      match element_name x with
      | Some t => t :: accepted items'
      | None => []
      end
  end.

(** What a row of the table says, as the loader reads it. *)
Definition listed (literal_eval : string -> option pyval) (r : row)
    (cell : option string) : list string :=
  if String.eqb (row_name r) EmptyString then []
  else accepted (cell_items literal_eval cell).

Definition table_has (literal_eval : string -> option pyval)
    (rows : list row) (d s : string) : Prop :=
  ∃ r s0, r ∈ rows ∧ d = clean (row_name r)
          ∧ s0 ∈ listed literal_eval r (row_symptoms r) ∧ s = clean s0.

Definition table_treats (literal_eval : string -> option pyval)
    (rows : list row) (t d : string) : Prop :=
  ∃ r t0, r ∈ rows ∧ d = clean (row_name r)
          ∧ t0 ∈ listed literal_eval r (row_treatments r) ∧ t = clean t0.

Definition table_related (literal_eval : string -> option pyval)
    (rows : list row) (o : op) (n x : string) : Prop :=
  match o with
  | SymptomsOf => table_has literal_eval rows n x
  | TreatmentsOf => table_treats literal_eval rows x n
  | DiseasesWith => table_has literal_eval rows x n
  | TreatmentsFor =>
      ∃ d, table_treats literal_eval rows x d
           ∧ table_has literal_eval rows d n
  end.

(** Neither end of [s] is a character that [strip q] removes. *)
Definition ends (q : ascii -> bool) (s : string) : Prop :=
  ∀ c, first_char s = Some c ∨ last_char s = Some c -> q c = false.

(** Stripping as the words "surrounding whitespace and quote characters"
    read: every blank and every quote at either end is removed, in
    whatever order they come.  [clean] above is what [get_id] does. *)
Definition strip_all (text : string) : string :=
  strip (fun c => isspace c || Ascii.eqb single_quote c
                  || Ascii.eqb double_quote c) text.

(** A table whose one row has no name. *)
Definition nameless_table : list row :=
  [ Row EmptyString (Some "['leaf spot']") (Some "['sulphur']") ].

Definition nameless_kb : kb := load_rows Literal.literal_eval nameless_table.

(** * Properties *)

(** ** [sorted] *)

Lemma elem_of_sorted (x : string) (X : gset string) : x ∈ sorted X ↔ x ∈ X.
Proof.
  unfold sorted. rewrite merge_sort_Permutation. apply elem_of_elements.
Qed.

Lemma NoDup_sorted (X : gset string) : NoDup (sorted X).
Proof.
  unfold sorted. rewrite merge_sort_Permutation. apply NoDup_elements.
Qed.

Lemma StronglySorted_sorted (X : gset string) :
  StronglySorted String.le (sorted X).
Proof. apply StronglySorted_merge_sort; apply _. Qed.

Lemma sorted_empty : sorted ∅ = [].
Proof. unfold sorted. by rewrite elements_empty. Qed.

(** ** [parse_results] on the answers of the engine *)

Lemma collect_eq_formula st i v acc :
  collect st (eq_formula i v) acc = {[get_name st v]} ∪ acc.
Proof. reflexivity. Qed.

Lemma collect_fold_eqs st (f : nat -> Z -> expr) vals acc :
  (∀ i v acc', collect st (f i v) acc' = {[get_name st v]} ∪ acc') ->
  fold_left (fun acc' child => collect st child acc') (imap f vals) acc
  = names st vals ∪ acc.
Proof.
  revert f acc. induction vals as [|v vals IH]; intros f acc Hf; simpl.
  - unfold names. simpl. set_solver.
  - rewrite Hf, IH by (intros; apply Hf).
    unfold names. simpl. set_solver.
Qed.

Lemma collect_row st vals acc :
  collect st (row_formula vals) acc = names st vals ∪ acc.
Proof.
  unfold row_formula.
  pose proof (collect_fold_eqs st eq_formula vals acc
                (fun i v a => collect_eq_formula st i v a)) as H.
  destruct vals as [|v [|w vals]]; simpl in *.
  - unfold names. simpl. set_solver.
  - unfold names. simpl. set_solver.
  - exact H.
Qed.

Lemma collect_fold_rows st rows acc :
  fold_left (fun acc' child => collect st child acc') (row_formula <$> rows) acc
  = names st (concat rows) ∪ acc.
Proof.
  revert acc. induction rows as [|r rows IH]; intros acc; simpl.
  - unfold names. simpl. set_solver.
  - rewrite collect_row, IH. unfold names.
    rewrite fmap_app, list_to_set_app_L. set_solver.
Qed.

Lemma collect_to_formula st rows acc :
  collect st (to_formula rows) acc = names st (concat rows) ∪ acc.
Proof.
  unfold to_formula.
  pose proof (collect_fold_rows st rows acc) as H.
  destruct rows as [|r [|r' rows]].
  - unfold names. simpl. set_solver.
  - simpl. rewrite collect_row, app_nil_r. reflexivity.
  - exact H.
Qed.

Lemma parse_results_to_formula st rows :
  parse_results st (to_formula rows) = sorted (names st (concat rows)).
Proof.
  unfold parse_results. rewrite collect_to_formula. f_equal. set_solver.
Qed.

(** ** What a query with one free variable selects *)

Lemma solve_var_bv tuples f x k :
  concat (solve tuples (Atom f (TVar x) (TBV k)))
  = (filter (fun p : Z * Z => p.2 = k) tuples).*1.
Proof.
  unfold solve. induction tuples as [|[a b] tuples IH]; [done|].
  rewrite filter_cons. cbn.
  destruct (decide (k = b)) as [->|Hne]; cbn.
  - rewrite decide_True by done. cbn. by rewrite IH.
  - rewrite decide_False by (cbn; congruence). exact IH.
Qed.

Lemma solve_bv_var tuples f x k :
  concat (solve tuples (Atom f (TBV k) (TVar x)))
  = (filter (fun p : Z * Z => p.1 = k) tuples).*2.
Proof.
  unfold solve. induction tuples as [|[a b] tuples IH]; [done|].
  rewrite filter_cons. cbn.
  destruct (decide (k = a)) as [->|Hne]; cbn.
  - rewrite decide_True by done. cbn. by rewrite IH.
  - rewrite decide_False by (cbn; congruence). exact IH.
Qed.

Lemma elem_of_cures_symptom st t s :
  (t, s) ∈ cures_symptom st ↔
  ∃ d, (t, d) ∈ treated_with st ∧ (d, s) ∈ has_symptom st.
Proof.
  unfold cures_symptom. rewrite list_elem_of_bind. split.
  - intros [[t' d] [Hin Ht]]. apply list_elem_of_bind in Hin.
    destruct Hin as [[d' s'] [Hin Hs]].
    destruct (decide (d = d')) as [->|]; [|by apply elem_of_nil in Hin].
    apply list_elem_of_singleton in Hin. simplify_eq. eauto.
  - intros (d & Ht & Hs). exists (t, d). split; [|done].
    apply list_elem_of_bind. exists (d, s). split; [|done].
    rewrite decide_True by done. by apply list_elem_of_singleton.
Qed.

Lemma ask_var_bv f x k st :
  ∃ r, ask f (AConst x) (AId (Some k)) st = (Ret r, st)
       ∧ default [] r
         = sorted (names st
             (filter (fun p : Z * Z => p.2 = k) (tuples st f)).*1).
Proof.
  unfold ask, bind, lift, call, cast, query, get_answer. cbn.
  rewrite <- (solve_var_bv _ f x k).
  destruct (solve (tuples st f) (Atom f (TVar x) (TBV k))) as [|r rs] eqn:E.
  - eexists; split; [done|]. cbn. unfold names. cbn. by rewrite sorted_empty.
  - eexists; split; [done|]. cbn [default]. apply parse_results_to_formula.
Qed.

Lemma ask_bv_var f x k st :
  ∃ r, ask f (AId (Some k)) (AConst x) st = (Ret r, st)
       ∧ default [] r
         = sorted (names st
             (filter (fun p : Z * Z => p.1 = k) (tuples st f)).*2).
Proof.
  unfold ask, bind, lift, call, cast, query, get_answer. cbn.
  rewrite <- (solve_bv_var _ f x k).
  destruct (solve (tuples st f) (Atom f (TBV k) (TVar x))) as [|r rs] eqn:E.
  - eexists; split; [done|]. cbn. unfold names. cbn. by rewrite sorted_empty.
  - eexists; split; [done|]. cbn [default]. apply parse_results_to_formula.
Qed.

Lemma run_op_id o sel st k st' :
  get_id (selected sel) st = (Ret (Some k), st') ->
  run_op o sel st = (Ret (sorted (names st' (answers o st' k))), st').
Proof.
  intros Hid.
  destruct o; cbn [run_op answers];
    unfold symptomsOf, treatmentsOf, diseasesWith, treatmentsFor;
    unfold bind at 1; rewrite Hid; unfold bind, ret.
  - destruct (ask_bv_var has_symptom_rel "s" k st') as (r & -> & ->). done.
  - destruct (ask_var_bv treated_with_rel "t" k st') as (r & -> & ->). done.
  - destruct (ask_var_bv has_symptom_rel "d" k st') as (r & -> & ->). done.
  - destruct (ask_var_bv cures_symptom_rel "t" k st') as (r & -> & ->). done.
Qed.

Lemma run_op_none o sel st st' :
  get_id (selected sel) st = (Ret None, st') ->
  run_op o sel st = (Raise Z3Exception, st').
Proof.
  intros Hid.
  destruct o; cbn [run_op];
    unfold symptomsOf, treatmentsOf, diseasesWith, treatmentsFor;
    unfold bind at 1; rewrite Hid; reflexivity.
Qed.

(** ** [get_id] *)

Lemma string_eqb_empty (s : string) :
  s ≠ EmptyString -> String.eqb s EmptyString = false.
Proof. intros H. by apply String.eqb_neq. Qed.

Lemma get_id_str t st :
  t ≠ EmptyString ->
  get_id (PyStr t) st
  = match str_to_id st !! clean t with
    | Some v => (Ret (Some v), st)
    | None => (Ret (Some (BitVecVal (counter st))), intern (clean t) st)
    end.
Proof.
  intros Ht. unfold get_id. cbn [truthy]. by rewrite string_eqb_empty.
Qed.

Lemma get_id_falsy v st : truthy v = false -> get_id v st = (Ret None, st).
Proof. intros H. unfold get_id. by rewrite H. Qed.

Lemma get_id_known t v st :
  t ≠ EmptyString -> str_to_id st !! clean t = Some v ->
  get_id (PyStr t) st = (Ret (Some v), st).
Proof. intros Ht Hv. by rewrite get_id_str, Hv. Qed.

Lemma get_id_fresh t st :
  t ≠ EmptyString -> str_to_id st !! clean t = None ->
  get_id (PyStr t) st
  = (Ret (Some (BitVecVal (counter st))), intern (clean t) st).
Proof. intros Ht Hv. by rewrite get_id_str, Hv. Qed.

(** ** The loop bodies of the loader *)

Lemma element_name_Some x t :
  element_name x = Some t ↔ x = PyStr t ∧ t ≠ EmptyString.
Proof.
  destruct x; cbn; try (split; [done | by intros [? _]]).
  destruct (String.eqb_spec s EmptyString) as [->|Hne].
  - split; [done | intros [[= ->] ?]; done].
  - split; [intros [= ->]; done | intros [[= ->] _]; done].
Qed.

Lemma get_id_element x t st :
  element_name x = Some t ->
  get_id x st = (Ret (Some (lookup_or_intern (clean t) st).1),
                 (lookup_or_intern (clean t) st).2).
Proof.
  intros [-> Ht]%element_name_Some. rewrite get_id_str by done.
  unfold lookup_or_intern. by destruct (str_to_id st !! clean t).
Qed.

Lemma get_id_not_element x st :
  element_name x = None ->
  get_id x st = (Ret None, st) ∨ get_id x st = (Raise AttributeError, st).
Proof.
  intros Hx. unfold get_id. destruct (truthy x) eqn:Htr; cbn; [|by left].
  destruct x; try (by right). cbn in Hx, Htr.
  destruct (String.eqb s EmptyString); done.
Qed.

Lemma symptom_body_element did x t st :
  element_name x = Some t ->
  symptom_body did x st
  = match did with
    | Some d =>
        (Ret tt,
         add_symptom t
           (add_has_symptom (d, (lookup_or_intern (clean t) st).1)
              (lookup_or_intern (clean t) st).2))
    | None => (Raise Z3Exception, (lookup_or_intern (clean t) st).2)
    end.
Proof.
  intros Hx. unfold symptom_body. unfold bind at 1.
  rewrite (get_id_element x t st Hx).
  apply element_name_Some in Hx as [-> _]. by destruct did.
Qed.

Lemma symptom_body_stop did x st :
  element_name x = None -> ∃ e, symptom_body did x st = (Raise e, st).
Proof.
  intros Hx. unfold symptom_body. unfold bind at 1.
  destruct (get_id_not_element x st Hx) as [-> | ->]; [|by eexists].
  unfold bind, lift, call, cast. destruct did; by eexists.
Qed.

Lemma treatment_body_element did x t st :
  element_name x = Some t ->
  treatment_body did x st
  = match did with
    | Some d =>
        (Ret tt,
         add_treated_with ((lookup_or_intern (clean t) st).1, d)
           (lookup_or_intern (clean t) st).2)
    | None => (Raise Z3Exception, (lookup_or_intern (clean t) st).2)
    end.
Proof.
  intros Hx. unfold treatment_body. unfold bind at 1.
  rewrite (get_id_element x t st Hx). by destruct did.
Qed.

Lemma treatment_body_stop did x st :
  element_name x = None -> ∃ e, treatment_body did x st = (Raise e, st).
Proof.
  intros Hx. unfold treatment_body. unfold bind at 1.
  destruct (get_id_not_element x st Hx) as [-> | ->]; [|by eexists].
  unfold bind, lift, call, cast. destruct did; by eexists.
Qed.

(** A relation between the states before and after that every run of the
    body respects is respected by the whole loop, wherever it stops. *)
Lemma for_each_rel {A} (R : relation kb) `{!Reflexive R, !Transitive R}
    (body : A -> M unit) (l : list A) :
  (∀ x st, R st (body x st).2) -> ∀ st, R st (for_each body l st).2.
Proof.
  intros Hbody. induction l as [|x l IH]; intros st; cbn.
  - reflexivity.
  - unfold bind. specialize (Hbody x st).
    destruct (body x st) as [[[]|e] st1]; cbn in *; [|done].
    etrans; [exact Hbody | apply IH].
Qed.

Lemma load_cell_rel (literal_eval : string -> option pyval)
    (R : relation kb) `{!Reflexive R, !Transitive R}
    (cell : option string) (body : pyval -> M unit) :
  (∀ x st, R st (body x st).2) ->
  ∀ st, R st (load_cell literal_eval cell body st).
Proof.
  intros Hbody st. unfold load_cell.
  destruct cell as [text|]; [|reflexivity].
  destruct (String.eqb text EmptyString); [reflexivity|].
  destruct (literal_eval text) as [v|]; [|reflexivity].
  destruct (iter v) as [items|]; [|reflexivity].
  unfold try_pass. by apply for_each_rel.
Qed.

(** ** The invariant of the interning tables *)

Global Instance grows_refl : Reflexive grows.
Proof. intros st. unfold grows. done. Qed.

Global Instance grows_trans : Transitive grows.
Proof. intros st1 st2 st3. unfold grows. intros. by etrans. Qed.

Lemma grows_lookup st st' n v :
  grows st st' -> str_to_id st !! n = Some v -> str_to_id st' !! n = Some v.
Proof. intros H Hl. by eapply lookup_weaken. Qed.

Lemma grows_is_id st st' v : grows st st' -> is_id st v -> is_id st' v.
Proof. intros H [n Hn]. exists n. by eapply grows_lookup. Qed.

Lemma grows_is_Some st st' n :
  grows st st' -> is_Some (str_to_id st !! n) -> is_Some (str_to_id st' !! n).
Proof. intros H [v Hv]. exists v. by eapply grows_lookup. Qed.

Lemma init_inv : kb_inv init.
Proof.
  split; cbn; try done.
  all: intros; repeat match goal with
                      | H : is_Some _ |- _ => destruct H
                      | H : _ ∈ [] |- _ => by apply elem_of_nil in H
                      end; set_solver.
Qed.

Lemma intern_grows n st : str_to_id st !! n = None -> grows st (intern n st).
Proof. intros Hn. unfold grows, intern. cbn. by apply insert_subseteq. Qed.

Lemma intern_inv t st :
  kb_inv st -> t ≠ EmptyString -> str_to_id st !! clean t = None ->
  kb_inv (intern (clean t) st).
Proof.
  intros [Hc Hs Hi Hh Ht Hcl Hsy Hd] Hne Hnew.
  pose proof (intern_grows _ _ Hnew) as Hg.
  split; cbn.
  - lia.
  - intros n v. rewrite lookup_insert. case_decide as Hn.
    + intros [= <-]. subst n. exists (counter st).
      split; [lia|]. split; [done|]. by rewrite lookup_insert_eq.
    + intros Hv. destruct (Hs n v Hv) as (c & Hr & -> & Hc').
      exists c. split; [lia|]. split; [done|].
      rewrite lookup_insert_ne by lia. done.
  - intros c n. rewrite lookup_insert. case_decide as Hn.
    + intros [= <-]. subst c. split; [lia|]. by rewrite lookup_insert_eq.
    + intros Hv. destruct (Hi c n Hv) as [Hr Hl]. split; [lia|].
      rewrite lookup_insert_ne; [done|]. intros <-. congruence.
  - intros p Hp. destruct (Hh p Hp). split; by eapply grows_is_id.
  - intros p Hp. destruct (Ht p Hp). split; by eapply grows_is_id.
  - intros n. rewrite lookup_insert. case_decide as Hn.
    + intros _. subst n. by exists t.
    + apply Hcl.
  - intros s Hs'. destruct (Hsy s Hs') as [? ?]. split; [done|].
    by apply (grows_is_Some st (intern (clean t) st)).
  - intros d Hd'. destruct (Hd d Hd') as [?|?]; [by left|right].
    by apply (grows_is_Some st (intern (clean t) st)).
Qed.

Lemma lookup_or_intern_grows n st : grows st (lookup_or_intern n st).2.
Proof.
  unfold lookup_or_intern. destruct (str_to_id st !! n) eqn:E; cbn.
  - reflexivity.
  - by apply intern_grows.
Qed.

Lemma lookup_or_intern_lookup n st :
  str_to_id (lookup_or_intern n st).2 !! n = Some (lookup_or_intern n st).1.
Proof.
  unfold lookup_or_intern. destruct (str_to_id st !! n) eqn:E; cbn; [done|].
  by rewrite lookup_insert_eq.
Qed.

Lemma lookup_or_intern_inv t st :
  kb_inv st -> t ≠ EmptyString -> kb_inv (lookup_or_intern (clean t) st).2.
Proof.
  intros Hinv Ht. unfold lookup_or_intern.
  destruct (str_to_id st !! clean t) eqn:E; cbn; [done|].
  by apply intern_inv.
Qed.

Lemma add_has_symptom_inv a b st :
  kb_inv st -> is_id st a -> is_id st b -> kb_inv (add_has_symptom (a, b) st).
Proof.
  intros [Hc Hs Hi Hh Ht Hcl Hsy Hd] Ha Hb. split; cbn; try done.
  intros p [Hp | ->%list_elem_of_singleton]%elem_of_app; [by apply Hh|done].
Qed.

Lemma add_treated_with_inv a b st :
  kb_inv st -> is_id st a -> is_id st b -> kb_inv (add_treated_with (a, b) st).
Proof.
  intros [Hc Hs Hi Hh Ht Hcl Hsy Hd] Ha Hb. split; cbn; try done.
  intros p [Hp | ->%list_elem_of_singleton]%elem_of_app; [by apply Ht|done].
Qed.

Lemma add_symptom_inv t st :
  kb_inv st -> t ≠ EmptyString -> is_Some (str_to_id st !! clean t) ->
  kb_inv (add_symptom t st).
Proof.
  intros [Hc Hs Hi Hh Ht Hcl Hsy Hd] Hne Hreg. split; cbn; try done.
  intros s [->%elem_of_singleton | Hin]%elem_of_union; [done | by apply Hsy].
Qed.

Lemma add_disease_inv t st :
  kb_inv st -> t = EmptyString ∨ is_Some (str_to_id st !! clean t) ->
  kb_inv (add_disease t st).
Proof.
  intros [Hc Hs Hi Hh Ht Hcl Hsy Hd] Hreg. split; cbn; try done.
  intros s [->%elem_of_singleton | Hin]%elem_of_union; [done | by apply Hd].
Qed.

Global Instance keeps_refl P : Reflexive (keeps P).
Proof. intros st H. exact H. Qed.

Global Instance keeps_trans P : Transitive (keeps P).
Proof. intros st1 st2 st3 H12 H23 H. apply H23, H12, H. Qed.

Lemma symptom_body_inv did x st :
  keeps (row_inv did) st (symptom_body did x st).2.
Proof.
  intros [Hinv Hdid]. destruct (element_name x) as [t|] eqn:Hx.
  - rewrite (symptom_body_element did x t st Hx).
    apply element_name_Some in Hx as [-> Ht].
    pose proof (lookup_or_intern_grows (clean t) st) as Hg.
    pose proof (lookup_or_intern_lookup (clean t) st) as Hl.
    pose proof (lookup_or_intern_inv t st Hinv Ht) as Hinv'.
    destruct did as [d|]; cbn.
    + split.
      * apply add_symptom_inv; [|done|by cbn; eexists].
        apply add_has_symptom_inv; [done| |by eexists].
        eapply grows_is_id; eauto.
      * intros ? [= <-]. eapply grows_is_id; [exact Hg|]. by apply Hdid.
    + split; [done|]. intros; done.
  - destruct (symptom_body_stop did x st Hx) as [e ->]. by split.
Qed.

Lemma treatment_body_inv did x st :
  keeps (row_inv did) st (treatment_body did x st).2.
Proof.
  intros [Hinv Hdid]. destruct (element_name x) as [t|] eqn:Hx.
  - rewrite (treatment_body_element did x t st Hx).
    apply element_name_Some in Hx as [-> Ht].
    pose proof (lookup_or_intern_grows (clean t) st) as Hg.
    pose proof (lookup_or_intern_lookup (clean t) st) as Hl.
    pose proof (lookup_or_intern_inv t st Hinv Ht) as Hinv'.
    destruct did as [d|]; cbn.
    + split.
      * apply add_treated_with_inv; [done|by eexists|].
        eapply grows_is_id; eauto.
      * intros ? [= <-]. eapply grows_is_id; [exact Hg|]. by apply Hdid.
    + split; [done|]. intros; done.
  - destruct (treatment_body_stop did x st Hx) as [e ->]. by split.
Qed.

Section LoaderInvariant.

Variable literal_eval : string -> option pyval.

Lemma load_row_unfold r st :
  load_row literal_eval r st
  = load_cell literal_eval (row_treatments r)
      (treatment_body (row_start r st).1)
      (load_cell literal_eval (row_symptoms r)
         (symptom_body (row_start r st).1) (row_start r st).2).
Proof.
  unfold load_row, row_start.
  destruct (String.eqb_spec (row_name r) EmptyString) as [E|E].
  - rewrite get_id_falsy; [done|]. cbn. by rewrite E.
  - rewrite (get_id_element _ (row_name r)); [done|].
    by apply element_name_Some.
Qed.

Lemma row_start_inv r st :
  kb_inv st -> row_inv (row_start r st).1 (row_start r st).2.
Proof.
  intros Hinv. unfold row_start.
  destruct (String.eqb_spec (row_name r) EmptyString) as [E|E]; cbn.
  - split; [|done]. apply add_disease_inv; auto.
  - pose proof (lookup_or_intern_lookup (clean (row_name r)) st) as Hl.
    split.
    + apply add_disease_inv; [by apply lookup_or_intern_inv|].
      right. by eexists.
    + intros d [= <-]. by eexists.
Qed.

Lemma load_row_inv r st : kb_inv st -> kb_inv (load_row literal_eval r st).
Proof.
  intros Hinv. rewrite load_row_unfold.
  pose proof (row_start_inv r st Hinv) as H0.
  set (did := (row_start r st).1) in *.
  assert (row_inv did
            (load_cell literal_eval (row_symptoms r) (symptom_body did)
               (row_start r st).2)) as H1.
  { revert H0. apply (load_cell_rel _ (keeps (row_inv did))).
    apply symptom_body_inv. }
  revert H1. generalize (load_cell literal_eval (row_symptoms r)
                           (symptom_body did) (row_start r st).2).
  intros st1 H1.
  apply (load_cell_rel literal_eval (keeps (row_inv did))
           (row_treatments r) (treatment_body did)
           (treatment_body_inv did) st1 H1).
Qed.

Lemma fold_load_inv rows st :
  kb_inv st ->
  kb_inv (fold_left (fun st r => load_row literal_eval r st) rows st).
Proof.
  revert st. induction rows as [|r rows IH]; intros st Hinv; cbn; [done|].
  apply IH. by apply load_row_inv.
Qed.

Lemma load_rows_inv rows : kb_inv (load_rows literal_eval rows).
Proof. apply fold_load_inv, init_inv. Qed.

End LoaderInvariant.

(** ** Identifiers and names below the 32-bit bound *)

Lemma BitVecVal_small c : 0 ≤ c < 2 ^ 32 -> BitVecVal c = c.
Proof. intros H. unfold BitVecVal. by apply Z.mod_small. Qed.

Lemma get_name_of_id st n v :
  kb_inv st -> counter st ≤ 2 ^ 32 ->
  str_to_id st !! n = Some v -> get_name st v = n.
Proof.
  intros Hinv Hb Hv.
  destruct (inv_str_to_id st Hinv n v Hv) as (c & Hc & -> & Hn).
  unfold get_name. rewrite BitVecVal_small by lia. by rewrite Hn.
Qed.

Lemma str_to_id_inj st n n' v :
  kb_inv st -> counter st ≤ 2 ^ 32 ->
  str_to_id st !! n = Some v -> str_to_id st !! n' = Some v -> n = n'.
Proof.
  intros Hinv Hb Hn Hn'.
  rewrite <- (get_name_of_id st n v), <- (get_name_of_id st n' v); done.
Qed.

Lemma is_id_get_name st v :
  kb_inv st -> counter st ≤ 2 ^ 32 ->
  is_id st v -> str_to_id st !! get_name st v = Some v.
Proof. intros Hinv Hb [n Hn]. by rewrite (get_name_of_id st n v). Qed.

Lemma fresh_id_unused st :
  kb_inv st -> counter st < 2 ^ 32 -> ¬ is_id st (BitVecVal (counter st)).
Proof.
  intros Hinv Hb [n Hn].
  destruct (inv_str_to_id st Hinv n _ Hn) as (c & Hc & Heq & _).
  pose proof (inv_counter st Hinv).
  rewrite !BitVecVal_small in Heq by lia. lia.
Qed.

(** ** The relations between names *)

Lemma elem_of_names st l x :
  x ∈ names st l ↔ ∃ v, v ∈ l ∧ get_name st v = x.
Proof.
  unfold names. rewrite elem_of_list_to_set, list_elem_of_fmap.
  split; intros (v & ? & ?); exists v; done.
Qed.

Lemma elem_of_select_fst (tuples : list (Z * Z)) k a :
  a ∈ (filter (fun p : Z * Z => p.2 = k) tuples).*1 ↔ (a, k) ∈ tuples.
Proof.
  rewrite list_elem_of_fmap. split.
  - intros ([a' b] & -> & [Hb Hin]%list_elem_of_filter). cbn in *. by subst.
  - intros Hin. exists (a, k). split; [done|]. by apply list_elem_of_filter.
Qed.

Lemma elem_of_select_snd (tuples : list (Z * Z)) k b :
  b ∈ (filter (fun p : Z * Z => p.1 = k) tuples).*2 ↔ (k, b) ∈ tuples.
Proof.
  rewrite list_elem_of_fmap. split.
  - intros ([a b'] & -> & [Ha Hin]%list_elem_of_filter). cbn in *. by subst.
  - intros Hin. exists (k, b). split; [done|]. by apply list_elem_of_filter.
Qed.

Lemma related_known o st n k x :
  kb_inv st -> counter st ≤ 2 ^ 32 -> str_to_id st !! n = Some k ->
  x ∈ names st (answers o st k) ↔ related o st n x.
Proof.
  intros Hinv Hb Hk. rewrite elem_of_names.
  destruct o; cbn [answers related].
  - split.
    + intros (v & Hv%elem_of_select_snd & <-).
      destruct (inv_has_symptom st Hinv _ Hv) as [_ Hid]. cbn in Hid.
      exists k, v. split; [done|]. split; [by apply is_id_get_name|done].
    + intros (a & b & Ha & Hx & Hin). assert (a = k) as -> by congruence.
      exists b. split; [by apply elem_of_select_snd|].
      by apply get_name_of_id.
  - split.
    + intros (v & Hv%elem_of_select_fst & <-).
      destruct (inv_treated_with st Hinv _ Hv) as [Hid _]. cbn in Hid.
      exists v, k. split; [by apply is_id_get_name|done].
    + intros (a & b & Hx & Hb' & Hin). assert (b = k) as -> by congruence.
      exists a. split; [by apply elem_of_select_fst|].
      by apply get_name_of_id.
  - split.
    + intros (v & Hv%elem_of_select_fst & <-).
      destruct (inv_has_symptom st Hinv _ Hv) as [Hid _]. cbn in Hid.
      exists v, k. split; [by apply is_id_get_name|done].
    + intros (a & b & Hx & Hb' & Hin). assert (b = k) as -> by congruence.
      exists a. split; [by apply elem_of_select_fst|].
      by apply get_name_of_id.
  - split.
    + intros (v & Hv%elem_of_select_fst & <-).
      apply elem_of_cures_symptom in Hv as (d & Ht & Hs).
      destruct (inv_treated_with st Hinv _ Ht) as [Hv Hd]. cbn in Hv, Hd.
      exists (get_name st d). split.
      * exists v, d. repeat split; [by apply is_id_get_name..|done].
      * exists d, k. repeat split; [by apply is_id_get_name|done..].
    + intros (d & (a & b & Hx & Hd & Ht) & (b' & k' & Hd' & Hk' & Hs)).
      assert (b' = b) as -> by congruence.
      assert (k' = k) as -> by congruence.
      exists a. split; [|by apply get_name_of_id].
      apply elem_of_select_fst, elem_of_cures_symptom. eauto.
Qed.

Lemma related_unknown o st n x :
  str_to_id st !! n = None -> ¬ related o st n x.
Proof.
  intros Hn. destruct o; cbn.
  - intros (a & b & ? & ? & ?). congruence.
  - intros (a & b & ? & ? & ?). congruence.
  - intros (a & b & ? & ? & ?). congruence.
  - intros (d & _ & (a & b & ? & ? & ?)). congruence.
Qed.

Lemma answers_fresh o st n :
  kb_inv st -> counter st < 2 ^ 32 -> str_to_id st !! n = None ->
  answers o (intern n st) (BitVecVal (counter st)) = [].
Proof.
  intros Hinv Hb Hn. pose proof (fresh_id_unused st Hinv Hb) as Hfresh.
  apply elem_of_nil_inv. intros v.
  destruct o; cbn [answers]; cbn [has_symptom treated_with intern].
  - intros Hv%elem_of_select_snd.
    by destruct (inv_has_symptom st Hinv _ Hv) as [? _].
  - intros Hv%elem_of_select_fst.
    by destruct (inv_treated_with st Hinv _ Hv) as [_ ?].
  - intros Hv%elem_of_select_fst.
    by destruct (inv_has_symptom st Hinv _ Hv) as [_ ?].
  - intros Hv%elem_of_select_fst.
    apply elem_of_cures_symptom in Hv as (d & _ & Hs).
    by destruct (inv_has_symptom st Hinv _ Hs) as [_ ?].
Qed.

(** The workhorse: an operation asked about a non-empty name returns the
    sorted set of the names related to its cleaned form. *)
Lemma run_op_spec o s st :
  kb_inv st -> counter st < 2 ^ 32 -> s ≠ EmptyString ->
  ∃ X st',
    run_op o (Some s) st = (Ret (sorted X), st')
    ∧ (∀ x, x ∈ X ↔ related o st (clean s) x)
    ∧ (is_Some (str_to_id st !! clean s) -> st' = st)
    ∧ kb_inv st' ∧ counter st' ≤ 2 ^ 32 ∧ grows st st'.
Proof.
  intros Hinv Hb Hs.
  destruct (str_to_id st !! clean s) as [k|] eqn:Hk.
  - exists (names st (answers o st k)), st.
    split; [apply run_op_id; by apply get_id_known|].
    split; [intros x; apply related_known; [done|lia|done]|].
    split; [done|]. split; [done|]. split; [lia|reflexivity].
  - exists ∅, (intern (clean s) st).
    split.
    { rewrite (run_op_id o (Some s) st (BitVecVal (counter st))
                 (intern (clean s) st)) by by apply get_id_fresh.
      rewrite answers_fresh by done. reflexivity. }
    split.
    { intros x. split; [set_solver|]. intros H.
      by apply related_unknown in H. }
    split; [by intros [? ?]|].
    split; [by apply intern_inv|].
    split; [cbn; lia | by apply intern_grows].
Qed.

(** ** What the loader leaves in place *)

Global Instance extends_refl : Reflexive extends.
Proof. intros st. unfold extends. split; [reflexivity|]. set_solver. Qed.

Global Instance extends_trans : Transitive extends.
Proof.
  intros st1 st2 st3 (?&?&?) (?&?&?). unfold extends.
  split; [by etrans|]. set_solver.
Qed.

Global Instance same_symptoms_refl : Reflexive same_symptoms.
Proof. by intros st. Qed.

Global Instance same_symptoms_trans : Transitive same_symptoms.
Proof. intros st1 st2 st3 [? ?] [? ?]. split; congruence. Qed.

Lemma lookup_or_intern_extends n st : extends st (lookup_or_intern n st).2.
Proof.
  split; [apply lookup_or_intern_grows|].
  unfold lookup_or_intern. destruct (str_to_id st !! n); cbn; set_solver.
Qed.

Lemma lookup_or_intern_same_symptoms n st :
  same_symptoms st (lookup_or_intern n st).2.
Proof. unfold lookup_or_intern. by destruct (str_to_id st !! n). Qed.

Lemma symptom_body_extends did x st : extends st (symptom_body did x st).2.
Proof.
  destruct (element_name x) as [t|] eqn:Hx.
  - rewrite (symptom_body_element did x t st Hx).
    destruct (lookup_or_intern_extends (clean t) st) as (Hg & Hs & Hd).
    destruct did; cbn; [|done].
    split; [exact Hg|]. cbn. set_solver.
  - destruct (symptom_body_stop did x st Hx) as [e ->]. reflexivity.
Qed.

Lemma treatment_body_extends did x st :
  extends st (treatment_body did x st).2.
Proof.
  destruct (element_name x) as [t|] eqn:Hx.
  - rewrite (treatment_body_element did x t st Hx).
    destruct (lookup_or_intern_extends (clean t) st) as (Hg & Hs & Hd).
    destruct did; cbn; done.
  - destruct (treatment_body_stop did x st Hx) as [e ->]. reflexivity.
Qed.


Lemma row_start_extends r st : extends st (row_start r st).2.
Proof.
  unfold row_start. destruct (String.eqb (row_name r) EmptyString); cbn.
  - split; [by unfold grows|]. cbn. set_solver.
  - destruct (lookup_or_intern_extends (clean (row_name r)) st) as (Hg&Hs&Hd).
    split; [exact Hg|]. cbn. set_solver.
Qed.



Lemma row_start_registered r st :
  row_name r ≠ EmptyString ->
  ∃ d, (row_start r st).1 = Some d
       ∧ str_to_id (row_start r st).2 !! clean (row_name r) = Some d.
Proof.
  intros Hne. unfold row_start. rewrite string_eqb_empty by done. cbn.
  eexists. split; [done|]. apply lookup_or_intern_lookup.
Qed.

Lemma load_row_extends literal_eval r st :
  extends st (load_row literal_eval r st).
Proof.
  rewrite load_row_unfold.
  etrans; [apply row_start_extends|].
  etrans; [apply (load_cell_rel literal_eval extends), symptom_body_extends|].
  apply (load_cell_rel literal_eval extends), treatment_body_extends.
Qed.

Lemma fold_load_extends literal_eval rows st :
  extends st (fold_left (fun st r => load_row literal_eval r st) rows st).
Proof.
  revert st. induction rows as [|r rows IH]; intros st; cbn; [reflexivity|].
  etrans; [apply load_row_extends | apply IH].
Qed.

(** The symptom loop over non-empty strings records each of them, up to
    the first element that is not one. *)
Lemma for_each_symptoms d pre tail st :
  Forall (fun t => t ≠ EmptyString) pre ->
  tail = [] ∨ (∃ bad rest, tail = bad :: rest ∧ element_name bad = None) ->
  let st' := (for_each (symptom_body (Some d)) ((PyStr <$> pre) ++ tail) st).2 in
  all_symptoms st' = list_to_set pre ∪ all_symptoms st
  ∧ length (has_symptom st') = (length (has_symptom st) + length pre)%nat.
Proof.
  intros Hpre Htail. revert st.
  induction Hpre as [|t pre Ht Hpre IH]; intros st.
  - cbn. destruct Htail as [-> | (bad & rest & -> & Hbad)]; cbn.
    + split; [set_solver | lia].
    + unfold bind. destruct (symptom_body_stop (Some d) bad st Hbad) as [e ->].
      cbn. split; [set_solver | lia].
  - assert (∀ l, for_each (symptom_body (Some d)) (PyStr t :: l) st
                 = for_each (symptom_body (Some d)) l
                     (add_symptom t
                        (add_has_symptom
                           (d, (lookup_or_intern (clean t) st).1)
                           (lookup_or_intern (clean t) st).2))) as Hstep.
    { intros l. cbn. unfold bind.
      by rewrite (symptom_body_element (Some d) (PyStr t) t st)
        by by apply element_name_Some. }
    change ((PyStr <$> t :: pre) ++ tail)
      with (PyStr t :: ((PyStr <$> pre) ++ tail)).
    cbv zeta. rewrite !Hstep.
    destruct (lookup_or_intern_same_symptoms (clean t) st) as [Hh Hs].
    match goal with |- context [for_each _ _ ?s] => specialize (IH s) end.
    cbv zeta in IH. destruct IH as [IH1 IH2]. rewrite IH1, IH2. cbn.
    rewrite Hs, Hh, length_app. cbn. split; [set_solver | lia].
Qed.

(** ** The operations as functions of a selection *)

Lemma unsat_answers o st k :
  query st (op_atom o k) = unsat -> answers o st k = [].
Proof.
  unfold query. intros H.
  assert (solve (tuples st (a_rel (op_atom o k))) (op_atom o k) = []) as E.
  { by destruct (solve _ _). }
  clear H. destruct o; cbn [op_atom a_rel answers tuples] in *.
  - by rewrite <- (solve_bv_var _ has_symptom_rel "s"), E.
  - by rewrite <- (solve_var_bv _ treated_with_rel "t"), E.
  - by rewrite <- (solve_var_bv _ has_symptom_rel "d"), E.
  - by rewrite <- (solve_var_bv _ cures_symptom_rel "t"), E.
Qed.

Lemma get_id_selected s st :
  s ≠ EmptyString ->
  get_id (selected (Some s)) st
  = (Ret (Some (lookup_or_intern (clean s) st).1),
     (lookup_or_intern (clean s) st).2).
Proof. intros Hs. apply get_id_element. by apply element_name_Some. Qed.

Lemma run_op_state o sel st :
  (run_op o sel st).2 = (get_id (selected sel) st).2.
Proof.
  destruct sel as [s|].
  - destruct (String.eqb_spec s EmptyString) as [->|Hs].
    + by rewrite (run_op_none o _ st st).
    + rewrite (run_op_id o _ st _ _ (get_id_selected s st Hs)).
      by rewrite get_id_selected.
  - by rewrite (run_op_none o _ st st).
Qed.

(** C6, amended. Every query asked about a non-empty name returns a list of
    names that is in ascending order and holds no name twice; when the
    engine answers [unsat] (nothing matches) the list is empty and nothing
    is raised. *)
Theorem query_results_sorted_distinct (o : op) (s : string) (st : kb) :
  s ≠ EmptyString ->
  ∃ k l st',
    get_id (selected (Some s)) st = (Ret (Some k), st')
    ∧ run_op o (Some s) st = (Ret l, st')
    ∧ StronglySorted String.le l
    ∧ NoDup l
    ∧ (query st' (op_atom o k) = unsat -> l = []).
Proof.
  intros Hs. eexists _, _, _.
  split; [by apply get_id_selected|].
  split; [by apply run_op_id, get_id_selected|].
  split; [apply StronglySorted_sorted|].
  split; [apply NoDup_sorted|].
  intros Hu. rewrite (unsat_answers _ _ _ Hu). apply sorted_empty.
Qed.

Lemma query_results_sorted_distinct_witness :
  "dieback" ≠ EmptyString
  ∧ ∃ k l st',
      get_id (selected (Some "dieback")) spec_kb = (Ret (Some k), st')
      ∧ run_op DiseasesWith (Some "dieback") spec_kb = (Ret l, st')
      ∧ StronglySorted String.le l
      ∧ NoDup l
      ∧ (query st' (op_atom DiseasesWith k) = unsat -> l = []).
Proof.
  split; [discriminate|].
  apply (query_results_sorted_distinct DiseasesWith "dieback" spec_kb).
  discriminate.
Defined.

(** C6 as stated fails when the button is pressed with nothing selected,
    or with the empty name that a nameless row puts into the list of
    diseases: every query raises, none returns a list. *)
Lemma no_selection_returns_no_list :
  (∀ o, (run_op o None spec_kb).1 = Raise Z3Exception)
  ∧ (handle (DiagnoseProblem None) spec_kb).1
    = [st_divider; st_exception Z3Exception]
  ∧ (handle (GetInfo None) spec_kb).1
    = [st_divider; st_exception Z3Exception]
  ∧ diseases nameless_kb = [EmptyString]
  ∧ (∀ o, (run_op o (Some EmptyString) nameless_kb).1 = Raise Z3Exception).
Proof.
  split.
  { intros o. by rewrite (run_op_none o None spec_kb spec_kb). }
  split; [vm_compute; reflexivity|].
  split; [vm_compute; reflexivity|].
  split; [vm_compute; reflexivity|].
  intros o.
  by rewrite (run_op_none o (Some EmptyString) nameless_kb nameless_kb).
Qed.

(** C7. On the two-row table of the specification,
    [diseasesWith('leaf spot')] is [["Anthracnose"; "Husk Rot"]] and
    [treatmentsFor('leaf spot')] is [["copper fungicide"; "fungicide X"]]. *)
Theorem spec_example :
  (diseasesWith (Some "leaf spot") spec_kb).1
  = Ret ["Anthracnose"; "Husk Rot"]
  ∧ (treatmentsFor (Some "leaf spot") spec_kb).1
    = Ret ["copper fungicide"; "fungicide X"].
Proof. split; vm_compute; reflexivity. Qed.

(** C9. For no selection and for the empty string [get_id] returns
    [None] and interns nothing, and each of the four queries then raises
    instead of returning an empty list. *)
Theorem empty_name_has_no_id (st : kb) (o : op) :
  get_id (selected None) st = (Ret None, st)
  ∧ get_id (selected (Some EmptyString)) st = (Ret None, st)
  ∧ run_op o None st = (Raise Z3Exception, st)
  ∧ run_op o (Some EmptyString) st = (Raise Z3Exception, st).
Proof.
  split; [done|]. split; [done|].
  split; by apply run_op_none.
Qed.

(** ** The missing file *)

Lemma not_found_not_in_fmap (f : string -> ui) (l : list string) :
  (∀ d, f d ≠ st_error not_found_message) ->
  st_error not_found_message ∉ f <$> l.
Proof. intros Hf (d & Heq & _)%list_elem_of_fmap. by eapply Hf. Qed.

Lemma handle_not_found ev st : st_error not_found_message ∉ (handle ev st).1.
Proof.
  assert (∀ l : list string, st_error not_found_message
               ∉ (fun d => st_error ("**Potential Cause:** " +:+ d)) <$> l)
    as Hcause.
  { intros l. apply not_found_not_in_fmap. intros d. discriminate. }
  assert (∀ l : list string, st_error not_found_message
               ∉ (fun sym => st_markdown ("- " +:+ sym)) <$> l) as Hmd.
  { intros l. apply not_found_not_in_fmap. intros d. discriminate. }
  assert (∀ l : list string, st_error not_found_message ∉ st_success <$> l) as Hsucc.
  { intros l. apply not_found_not_in_fmap. intros d. discriminate. }
  destruct ev as [|sel|sel]; cbn [handle].
  - cbn. apply not_elem_of_nil.
  - unfold on_diagnose.
    destruct (get_id (selected sel) st) as [[s_id|e] st1];
      [|set_solver].
    destruct (ask has_symptom_rel _ _ st1) as [[diag|e] st2];
      [|set_solver].
    destruct diag as [[|d ds]|].
    + set_solver.
    + destruct (ask cures_symptom_rel _ _ st2) as [[cure|e] st3]; cbn [fst].
      * rewrite !not_elem_of_cons, not_elem_of_app. split; [done|].
        split; [apply Hcause|].
        rewrite not_elem_of_cons. split; [|apply not_elem_of_nil].
        by destruct cure as [[|]|].
      * rewrite !not_elem_of_cons, not_elem_of_app. split; [done|].
        split; [apply Hcause|].
        rewrite not_elem_of_cons. split; [done|apply not_elem_of_nil].
    + set_solver.
  - unfold on_get_info.
    destruct (get_id (selected sel) st) as [[d_id|e] st1];
      [|set_solver].
    destruct (ask has_symptom_rel _ _ st1) as [[syms|e] st2];
      [|set_solver].
    assert (st_error not_found_message
            ∉ st_subheader "Symptoms"
              :: match syms with
                 | Some found_symptoms =>
                     (fun sym => st_markdown ("- " +:+ sym))
                       <$> found_symptoms
                 | None => [st_write "No symptoms recorded."]
                 end) as Hsyms.
    { rewrite not_elem_of_cons. split; [done|].
      destruct syms; [apply Hmd|]. set_solver. }
    destruct (ask treated_with_rel _ _ st2) as [[treats|e] st3]; cbn [fst].
    + rewrite not_elem_of_cons, not_elem_of_app. split; [done|].
      split; [exact Hsyms|].
      rewrite not_elem_of_cons. split; [done|].
      destruct treats; [apply Hsucc|]. set_solver.
    + rewrite not_elem_of_cons, not_elem_of_app. split; [done|].
      split; [exact Hsyms|]. set_solver.
Qed.

(** C8. With the file absent the loader returns eight values where
    the script unpacks nine: the run ends in a [ValueError] before
    [if not fp] is reached, so the message about the missing file is not
    shown, for no file and no button.  With the file present the nine
    values are unpacked and the handler runs. *)
Theorem missing_file_raises (literal_eval : string -> option pyval)
    (ev : event) :
  List.length (load_kb literal_eval None) = 8%nat
  ∧ script literal_eval None ev = [st_exception ValueError]
  ∧ (∀ file, st_error not_found_message ∉ script literal_eval file ev)
  ∧ (∀ rows, script literal_eval (Some rows) ev
             = (handle ev (load_rows literal_eval rows)).1).
Proof.
  split; [done|]. split; [done|]. split; [|done].
  intros [rows|]; cbn.
  - apply handle_not_found.
  - by intros ?%list_elem_of_singleton.
Qed.

(** ** Malformed cells *)





(** ** What a query changes *)

Lemma intern_id_to_str_grows n st :
  kb_inv st -> id_to_str st ⊆ id_to_str (intern n st).
Proof.
  intros Hinv. cbn. apply insert_subseteq.
  destruct (id_to_str st !! counter st) as [m|] eqn:E; [|done].
  destruct (inv_id_to_str st Hinv _ _ E). lia.
Qed.

Lemma elem_of_symptoms st s : s ∈ symptoms st ↔ s ∈ all_symptoms st.
Proof. apply elem_of_sorted. Qed.

Lemma elem_of_diseases st d : d ∈ diseases st ↔ d ∈ all_diseases st.
Proof. apply elem_of_sorted. Qed.

Lemma get_id_option_unchanged st s :
  kb_inv st -> s ∈ symptoms st ∨ s ∈ diseases st ->
  (get_id (selected (Some s)) st).2 = st.
Proof.
  intros Hinv Hs.
  assert (s = EmptyString ∨ is_Some (str_to_id st !! clean s)) as [->|[v Hv]].
  { destruct Hs as [Hs%elem_of_symptoms | Hd%elem_of_diseases].
    - right. by apply (inv_all_symptoms st Hinv).
    - by apply (inv_all_diseases st Hinv). }
  - done.
  - destruct (String.eqb_spec s EmptyString) as [->|Hne]; [done|].
    cbn [selected]. by rewrite (get_id_known s v).
Qed.

(** ** Unknown names *)

(** C5, amended. A query about a non-empty name whose cleaned form was
    not registered by the loader returns the empty list and raises
    nothing. *)
Theorem unknown_name_empty_result (literal_eval : string -> option pyval)
    (rows : list row) (o : op) (s : string) :
  counter (load_rows literal_eval rows) < 2 ^ 32 ->
  s ≠ EmptyString ->
  str_to_id (load_rows literal_eval rows) !! clean s = None ->
  (run_op o (Some s) (load_rows literal_eval rows)).1 = Ret [].
Proof.
  intros Hb Hs Hnew.
  pose proof (load_rows_inv literal_eval rows) as Hinv.
  rewrite (run_op_id o (Some s) _ _ _ (get_id_fresh s _ Hs Hnew)).
  rewrite answers_fresh by done.
  transitivity (Ret (sorted ∅)); [reflexivity | by rewrite sorted_empty].
Qed.

Lemma unknown_name_empty_result_witness :
  (run_op SymptomsOf (Some "Phytophthora") spec_kb).1 = Ret [].
Proof.
  apply (unknown_name_empty_result Literal.literal_eval spec_table).
  - vm_compute. reflexivity.
  - discriminate.
  - vm_compute. reflexivity.
Defined.

(** C5 as stated fails at the empty string: it is a name the loader
    never registers, and every query about it raises. *)
Lemma unknown_empty_name_raises :
  str_to_id spec_kb !! clean EmptyString = None
  ∧ ∀ o, (run_op o (Some EmptyString) spec_kb).1 = Raise Z3Exception.
Proof.
  split; [vm_compute; reflexivity|].
  intros o. by rewrite (run_op_none o (Some EmptyString) spec_kb spec_kb).
Qed.

(** ** Cleaned names and identifiers *)

Lemma related_registered o st n x :
  related o st n x -> is_Some (str_to_id st !! x).
Proof.
  destruct o; cbn.
  - intros (a & b & ? & ? & ?). by eexists.
  - intros (a & b & ? & ? & ?). by eexists.
  - intros (a & b & ? & ? & ?). by eexists.
  - intros (d & (a & b & ? & ? & ?) & _). by eexists.
Qed.

Lemma lookup_or_intern_counter n st :
  counter st ≤ counter (lookup_or_intern n st).2 ≤ counter st + 1.
Proof.
  unfold lookup_or_intern. destruct (str_to_id st !! n); cbn; lia.
Qed.

Lemma get_id_twice a b st :
  kb_inv st -> counter st + 1 < 2 ^ 32 ->
  a ≠ EmptyString -> b ≠ EmptyString ->
  ∃ i j st1 st2,
    get_id (PyStr a) st = (Ret (Some i), st1)
    ∧ get_id (PyStr b) st1 = (Ret (Some j), st2)
    ∧ (i = j ↔ clean a = clean b).
Proof.
  intros Hinv Hb Ha Hb'.
  set (st1 := (lookup_or_intern (clean a) st).2).
  set (st2 := (lookup_or_intern (clean b) st1).2).
  exists (lookup_or_intern (clean a) st).1, (lookup_or_intern (clean b) st1).1,
    st1, st2.
  split; [by apply (get_id_selected a st)|].
  split; [by apply (get_id_selected b st1)|].
  pose proof (lookup_or_intern_inv a st Hinv Ha) as Hinv1. fold st1 in Hinv1.
  pose proof (lookup_or_intern_inv b st1 Hinv1 Hb') as Hinv2. fold st2 in Hinv2.
  pose proof (lookup_or_intern_counter (clean a) st) as Hc1. fold st1 in Hc1.
  pose proof (lookup_or_intern_counter (clean b) st1) as Hc2. fold st2 in Hc2.
  pose proof (lookup_or_intern_lookup (clean a) st) as Hl1. fold st1 in Hl1.
  pose proof (lookup_or_intern_lookup (clean b) st1) as Hl2. fold st2 in Hl2.
  pose proof (lookup_or_intern_grows (clean b) st1) as Hg. fold st2 in Hg.
  pose proof (grows_lookup _ _ _ _ Hg Hl1) as Hl1'.
  split.
  - intros Heq.
    apply (str_to_id_inj st2 (clean a) (clean b) _ Hinv2 ltac:(lia) Hl1').
    rewrite Heq. exact Hl2.
  - intros Heq. rewrite Heq in Hl1'. congruence.
Qed.

Lemma fold_load_symptoms literal_eval rows r text l st :
  r ∈ rows -> row_name r ≠ EmptyString ->
  row_symptoms r = Some text -> text ≠ EmptyString ->
  literal_eval text = Some (PyList (PyStr <$> l)) ->
  Forall (fun t => t ≠ EmptyString) l ->
  list_to_set l
  ⊆ all_symptoms (fold_left (fun st r => load_row literal_eval r st) rows st).
Proof.
  intros Hin Hname Hcell Htext Hval Hl. revert st.
  induction rows as [|r' rows IH]; intros st; [by apply elem_of_nil in Hin|].
  cbn. apply elem_of_cons in Hin as [<- | Hin]; [|by apply IH].
  destruct (fold_load_extends literal_eval rows (load_row literal_eval r st))
    as (_ & Hsub & _).
  etrans; [|exact Hsub]. clear Hsub IH.
  rewrite load_row_unfold.
  destruct (row_start_registered r st Hname) as (d & Hd & _).
  set (did := (row_start r st).1) in *.
  destruct (load_cell_rel literal_eval extends (row_treatments r)
              (treatment_body did) (treatment_body_extends did)
              (load_cell literal_eval (row_symptoms r) (symptom_body did)
                 (row_start r st).2)) as (_ & Hsub & _).
  etrans; [|exact Hsub]. clear Hsub.
  unfold load_cell. rewrite Hcell, string_eqb_empty, Hval by done.
  cbn [iter]. unfold try_pass. rewrite Hd.
  destruct (for_each_symptoms d l [] (row_start r st).2 Hl) as [H1 _];
    [by left|].
  rewrite app_nil_r in H1. rewrite H1. set_solver.
Qed.

(** ** The join *)

(** C1, amended. After loading, for non-empty names [s] and [d], the
    cleaned form of [d] is among [diseasesWith(s)] exactly when the cleaned
    form of [s] is among [symptomsOf(d)]: both say that the pair is in
    [has_symptom].  For names that cleaning leaves unchanged this is the
    symmetry between the names themselves. *)
Theorem join_symmetry_cleaned (literal_eval : string -> option pyval)
    (rows : list row) (s d : string) :
  counter (load_rows literal_eval rows) < 2 ^ 32 ->
  s ≠ EmptyString -> d ≠ EmptyString ->
  ∃ ds ss,
    (diseasesWith (Some s) (load_rows literal_eval rows)).1 = Ret ds
    ∧ (symptomsOf (Some d) (load_rows literal_eval rows)).1 = Ret ss
    ∧ (clean d ∈ ds ↔ clean s ∈ ss)
    ∧ (clean d ∈ ds
       ↔ has (load_rows literal_eval rows) (clean d) (clean s)).
Proof.
  intros Hb Hs Hd.
  pose proof (load_rows_inv literal_eval rows) as Hinv.
  destruct (run_op_spec DiseasesWith s _ Hinv Hb Hs)
    as (X1 & st1 & Hrun1 & HX1 & _).
  destruct (run_op_spec SymptomsOf d _ Hinv Hb Hd)
    as (X2 & st2 & Hrun2 & HX2 & _).
  cbn [run_op related] in *.
  exists (sorted X1), (sorted X2).
  rewrite Hrun1, Hrun2. split; [done|]. split; [done|].
  rewrite !elem_of_sorted, HX1, HX2. done.
Qed.

Lemma join_symmetry_cleaned_witness :
  ∃ ds ss,
    (diseasesWith (Some " leaf spot") spec_kb).1 = Ret ds
    ∧ (symptomsOf (Some "'Husk Rot'") spec_kb).1 = Ret ss
    ∧ (clean "'Husk Rot'" ∈ ds ↔ clean " leaf spot" ∈ ss)
    ∧ (clean "'Husk Rot'" ∈ ds
       ↔ has spec_kb (clean "'Husk Rot'") (clean " leaf spot")).
Proof.
  apply (join_symmetry_cleaned Literal.literal_eval spec_table).
  - vm_compute. reflexivity.
  - discriminate.
  - discriminate.
Defined.

(** C1 as stated fails on a name that cleaning changes.  The table holds
    the disease ['Husk Rot '] written with its quotes; the select box
    offers that string and the queries answer with [Husk Rot ], trailing
    blank included.  The offered name has the symptom but is not among the
    diseases with it; the answered name is among them but has no symptom. *)
Lemma join_symmetry_fails_on_raw_names :
  diseases quoted_kb = ["'Husk Rot '"]
  ∧ symptoms quoted_kb = ["leaf spot"]
  ∧ (diseasesWith (Some "leaf spot") quoted_kb).1 = Ret ["Husk Rot "]
  ∧ (symptomsOf (Some "'Husk Rot '") quoted_kb).1 = Ret ["leaf spot"]
  ∧ ("'Husk Rot '" ∉ ["Husk Rot "])
  ∧ (symptomsOf (Some "Husk Rot ") quoted_kb).1 = Ret [].
Proof.
  split_and!; try (vm_compute; reflexivity).
  by intros ?%list_elem_of_singleton.
Qed.

Lemma map_m_treatmentsOf st (ds : list string) :
  kb_inv st -> counter st < 2 ^ 32 ->
  (∀ d, d ∈ ds ->
        d ≠ EmptyString ∧ clean d = d ∧ is_Some (str_to_id st !! d)) ->
  ∃ ts, map_m (fun d => treatmentsOf (Some d)) ds st = (Ret ts, st)
        ∧ ∀ t, t ∈ concat ts ↔ ∃ d, d ∈ ds ∧ treats st t d.
Proof.
  intros Hinv Hb. induction ds as [|d ds IH]; intros Hds.
  - exists []. split; [done|]. intros t. cbn. split.
    + by intros ?%elem_of_nil.
    + by intros (d & ?%elem_of_nil & _).
  - destruct IH as (ts & Hts & Hin).
    { intros d' Hd'. apply Hds. by right. }
    destruct (Hds d) as (Hne & Hcl & Hreg); [by left|].
    destruct (run_op_spec TreatmentsOf d st Hinv Hb Hne)
      as (X & st' & Hrun & HX & Hsame & _).
    rewrite Hcl in Hsame, HX. rewrite (Hsame Hreg) in Hrun.
    cbn [run_op related] in *.
    exists (sorted X :: ts). split.
    + cbn. unfold bind. rewrite Hrun, Hts. done.
    + intros t. cbn. rewrite elem_of_app, elem_of_sorted, HX, Hin. split.
      * intros [Ht | (d' & Hd' & Ht)]; [exists d|exists d'];
          (split; [|done]); [by left | by right].
      * intros (d' & [-> | Hd']%elem_of_cons & Ht); [by left|].
        right. by exists d'.
Qed.

(** C2, amended. After loading, a treatment is in [treatmentsFor(s)]
    exactly when it treats some disease that has the symptom [s]; and
    [treatmentsFor(s)] is the sorted, distinct union of [treatmentsOf(d)]
    over the diseases [d] of [diseasesWith(s)] whenever those disease names
    are non-empty and unchanged by the cleaning of [get_id]. *)
Theorem treatmentsFor_is_join (literal_eval : string -> option pyval)
    (rows : list row) (s : string) :
  counter (load_rows literal_eval rows) < 2 ^ 32 ->
  s ≠ EmptyString ->
  ∃ l,
    (treatmentsFor (Some s) (load_rows literal_eval rows)).1 = Ret l
    ∧ (∀ t, t ∈ l ↔
            ∃ d, treats (load_rows literal_eval rows) t d
                 ∧ has (load_rows literal_eval rows) d (clean s))
    ∧ ((∀ d, has (load_rows literal_eval rows) d (clean s) ->
             d ≠ EmptyString ∧ clean d = d) ->
       (union_of_treatmentsOf (Some s) (load_rows literal_eval rows)).1
       = Ret l).
Proof.
  intros Hb Hs.
  pose proof (load_rows_inv literal_eval rows) as Hinv.
  generalize dependent (load_rows literal_eval rows). intros st Hb Hinv.
  destruct (run_op_spec TreatmentsFor s st Hinv Hb Hs)
    as (X & st' & Hrun & HX & _).
  destruct (run_op_spec DiseasesWith s st Hinv Hb Hs)
    as (X1 & st1 & Hrun1 & HX1 & Hsame1 & _).
  cbn [run_op related] in *.
  exists (sorted X). rewrite Hrun. split; [done|].
  split; [intros t; by rewrite elem_of_sorted, HX|].
  intros Hstable. unfold union_of_treatmentsOf, bind at 1. rewrite Hrun1.
  destruct (str_to_id st !! clean s) as [k|] eqn:Hk.
  - rewrite (Hsame1 ltac:(done)) in *.
    destruct (map_m_treatmentsOf st (sorted X1) Hinv Hb) as (ts & Hts & Hin).
    { intros d Hd%elem_of_sorted%HX1.
      destruct (Hstable d Hd) as [? ?]. split; [done|]. split; [done|].
      destruct Hd as (a & b & ? & _). by eexists. }
    unfold bind. rewrite Hts. cbn. do 2 f_equal. apply set_eq. intros t.
    rewrite elem_of_list_to_set, Hin, HX. split.
    + intros (d & Hd%elem_of_sorted%HX1 & Ht). eauto.
    + intros (d & Ht & Hd). exists d. split; [|done].
      by apply elem_of_sorted, HX1.
  - assert (X1 = ∅) as ->.
    { apply set_eq. intros d. rewrite HX1. split; [|set_solver].
      intros (a & b & _ & ? & _). congruence. }
    assert (X = ∅) as ->.
    { apply set_eq. intros t. rewrite HX. split; [|set_solver].
      intros (d & _ & (a & b & _ & ? & _)). congruence. }
    rewrite sorted_empty. cbn. reflexivity.
Qed.

Lemma treatmentsFor_is_join_witness :
  ∃ l,
    (treatmentsFor (Some "dieback") spec_kb).1 = Ret l
    ∧ (union_of_treatmentsOf (Some "dieback") spec_kb).1 = Ret l.
Proof.
  destruct (treatmentsFor_is_join Literal.literal_eval spec_table "dieback")
    as (l & Hl & _ & Hunion).
  - vm_compute. reflexivity.
  - discriminate.
  - exists l. split; [exact Hl|]. apply Hunion.
    intros d (a & b & Hd & Hs & Hin).
    assert (b = 3) as -> by (vm_compute in Hs; congruence).
    assert (has_symptom (load_rows Literal.literal_eval spec_table)
            = [(1, 2); (1, 3); (5, 2)]) as E by (vm_compute; reflexivity).
    rewrite E in Hin.
    assert (a = 1) as ->.
    { clear -Hin.
      repeat (apply elem_of_cons in Hin as [Hin|Hin]; [by simplify_eq|]).
      by apply elem_of_nil in Hin. }
    assert (d = "Anthracnose") as ->.
    { apply (str_to_id_inj (load_rows Literal.literal_eval spec_table)
               _ _ 1 (load_rows_inv _ _)); [|exact Hd|].
      - vm_compute. discriminate.
      - vm_compute. reflexivity. }
    split; [discriminate | vm_compute; reflexivity].
Defined.

(** C2 as stated fails on the same table: the only disease with the
    symptom is answered as [Husk Rot ], [treatmentsOf] cleans that name
    once more and finds nothing, so the union is empty while
    [treatmentsFor] answers [fungicide X]. *)
Lemma union_of_treatmentsOf_differs :
  (treatmentsFor (Some "leaf spot") quoted_kb).1 = Ret ["fungicide X"]
  ∧ (diseasesWith (Some "leaf spot") quoted_kb).1 = Ret ["Husk Rot "]
  ∧ (treatmentsOf (Some "Husk Rot ") quoted_kb).1 = Ret []
  ∧ (union_of_treatmentsOf (Some "leaf spot") quoted_kb).1 = Ret [].
Proof. split_and!; vm_compute; reflexivity. Qed.

(** * Further properties *)

(** ** Interning *)

(** Shape of an invariant proof for the loader: a property kept by the
    five updates of the state is kept by a whole row, whatever its cells
    hold. *)
Section LoaderSteps.

Variable literal_eval : string -> option pyval.
Variable P : kb -> Prop.
Hypothesis P_intern :
  ∀ n st, P st -> str_to_id st !! n = None -> P (intern n st).
Hypothesis P_has : ∀ p st, P st -> P (add_has_symptom p st).
Hypothesis P_treated : ∀ p st, P st -> P (add_treated_with p st).
Hypothesis P_symptom : ∀ t st, P st -> P (add_symptom t st).
Hypothesis P_disease : ∀ t st, P st -> P (add_disease t st).

Lemma lookup_or_intern_steps n st : P st -> P (lookup_or_intern n st).2.
Proof using P_intern.
  intros H. unfold lookup_or_intern.
  destruct (str_to_id st !! n) eqn:E; cbn; [done | by apply P_intern].
Qed.

Lemma symptom_body_steps did x st : keeps P st (symptom_body did x st).2.
Proof using P_intern P_has P_symptom.
  intros H. destruct (element_name x) as [t|] eqn:Hx.
  - rewrite (symptom_body_element did x t st Hx).
    pose proof (lookup_or_intern_steps (clean t) st H).
    destruct did; cbn; [|done]. by apply P_symptom, P_has.
  - by destruct (symptom_body_stop did x st Hx) as [e ->].
Qed.

Lemma treatment_body_steps did x st : keeps P st (treatment_body did x st).2.
Proof using P_intern P_treated.
  intros H. destruct (element_name x) as [t|] eqn:Hx.
  - rewrite (treatment_body_element did x t st Hx).
    pose proof (lookup_or_intern_steps (clean t) st H).
    destruct did; cbn; [|done]. by apply P_treated.
  - by destruct (treatment_body_stop did x st Hx) as [e ->].
Qed.

Lemma load_row_steps r st : P st -> P (load_row literal_eval r st).
Proof using All.
  intros H. rewrite load_row_unfold.
  apply (load_cell_rel literal_eval (keeps P) (row_treatments r) _
           (treatment_body_steps _)).
  apply (load_cell_rel literal_eval (keeps P) (row_symptoms r) _
           (symptom_body_steps _)).
  unfold row_start. destruct (String.eqb (row_name r) EmptyString); cbn.
  - by apply P_disease.
  - by apply P_disease, lookup_or_intern_steps.
Qed.

Lemma load_rows_steps rows : P init -> P (load_rows literal_eval rows).
Proof using All.
  unfold load_rows. generalize init.
  induction rows as [|r rows IH]; intros st H; cbn; [done|].
  by apply IH, load_row_steps.
Qed.

End LoaderSteps.

Lemma dense_init : dense init.
Proof.
  unfold dense, init. cbn. split; [lia|]. split; [|split].
  - intros c. rewrite lookup_empty. split; [by intros [? ?] | lia].
  - intros n. rewrite lookup_empty. split; [by intros [? ?]|].
    intros (c & ? & ?). lia.
  - by rewrite map_size_empty.
Qed.

Lemma dense_intern n st :
  dense st -> str_to_id st !! n = None -> dense (intern n st).
Proof.
  intros (Hc & Hi & Hs & Hsz) Hn. unfold dense. cbn.
  assert (id_to_str st !! counter st = None) as Hfree.
  { destruct (id_to_str st !! counter st) eqn:E; [|done].
    assert (1 ≤ counter st < counter st) by (apply Hi; by eexists). lia. }
  split; [lia|]. split; [|split].
  - intros c. rewrite lookup_insert. case_decide as E.
    + subst c. split; [lia | by eexists].
    + rewrite Hi. lia.
  - intros m. rewrite lookup_insert. case_decide as E.
    + subst m. split; [|by eexists]. intros _. exists (counter st).
      split; [lia|]. by rewrite lookup_insert_eq.
    + rewrite Hs. split.
      * intros (c & Hr & Hl). exists c. split; [lia|].
        rewrite lookup_insert_ne by lia. done.
      * intros (c & Hr & Hl). rewrite lookup_insert in Hl.
        case_decide as E'; [congruence|]. exists c. split; [lia|done].
  - rewrite map_size_insert_None by done. lia.
Qed.

(** X3. The loader numbers the names from 1 upwards without gaps: an
    identifier has a name exactly when it lies between 1 and the counter,
    so 0 is never used, and the counter is one more than the number of
    names. *)
Theorem ids_are_dense (literal_eval : string -> option pyval)
    (rows : list row) :
  (∀ c, is_Some (id_to_str (load_rows literal_eval rows) !! c)
        ↔ 1 ≤ c < counter (load_rows literal_eval rows))
  ∧ Z.of_nat (size (str_to_id (load_rows literal_eval rows)))
    = counter (load_rows literal_eval rows) - 1
  ∧ Z.of_nat (size (id_to_str (load_rows literal_eval rows)))
    = counter (load_rows literal_eval rows) - 1.
Proof.
  assert (dense (load_rows literal_eval rows)
          ∧ size (id_to_str (load_rows literal_eval rows))
            = size (str_to_id (load_rows literal_eval rows)))
    as [(_ & Hi & _ & Hsz) Heq].
  { apply (load_rows_steps literal_eval
             (fun st => dense st
                        ∧ size (id_to_str st) = size (str_to_id st))).
    - intros n st [Hd Hs] Hn. split; [by apply dense_intern|]. cbn.
      destruct Hd as (Hc & Hi & _).
      rewrite !map_size_insert_None; [by rewrite Hs|done|].
      destruct (id_to_str st !! counter st) eqn:E; [|done].
      assert (1 ≤ counter st < counter st) by (apply Hi; by eexists). lia.
    - by intros p st.
    - by intros p st.
    - by intros t st.
    - by intros t st.
    - split; [apply dense_init | done]. }
  split; [exact Hi|]. split; [exact Hsz|]. by rewrite Heq.
Qed.

(** X2. Asking [get_id] for the same value again gives the same answer and
    changes nothing: the second call finds what the first one stored. *)
Theorem get_id_again (text : pyval) (st : kb) :
  get_id text (get_id text st).2 = get_id text st.
Proof.
  destruct (element_name text) as [t|] eqn:Hx.
  - rewrite (get_id_element text t st Hx). cbn [snd].
    rewrite (get_id_element text t _ Hx).
    pose proof (lookup_or_intern_lookup (clean t) st) as Hl.
    unfold lookup_or_intern at 1 3. by rewrite Hl.
  - destruct (get_id_not_element text st Hx) as [E | E];
      rewrite E; cbn [snd]; exact E.
Qed.

(** X1. Round trip through the two dictionaries: after loading, the name
    [get_name] gives back for the identifier of a non-empty string is the
    cleaned form of that string. *)
Theorem get_name_get_id (literal_eval : string -> option pyval)
    (rows : list row) (s : string) :
  counter (load_rows literal_eval rows) < 2 ^ 32 ->
  s ≠ EmptyString ->
  ∃ i st',
    get_id (PyStr s) (load_rows literal_eval rows) = (Ret (Some i), st')
    ∧ get_name st' i = clean s.
Proof.
  intros Hb Hs. pose proof (load_rows_inv literal_eval rows) as Hinv.
  eexists _, _. split; [by apply (get_id_selected s)|].
  apply get_name_of_id.
  - by apply lookup_or_intern_inv.
  - pose proof (lookup_or_intern_counter (clean s)
                  (load_rows literal_eval rows)). lia.
  - apply lookup_or_intern_lookup.
Qed.

Lemma get_name_get_id_witness :
  ∃ i st',
    get_id (PyStr " 'dieback' ") spec_kb = (Ret (Some i), st')
    ∧ get_name st' i = clean " 'dieback' ".
Proof.
  apply (get_name_get_id Literal.literal_eval spec_table).
  - vm_compute. reflexivity.
  - discriminate.
Defined.

(** ** The relations and the lists of names *)

Lemma names_disease_extends st st' a :
  extends st st' -> names_disease st a -> names_disease st' a.
Proof.
  intros (Hg & _ & Hd) (d & Hin & Hne & Hl). exists d.
  split; [by apply Hd|]. split; [done|]. by eapply grows_lookup.
Qed.

Lemma names_symptom_extends st st' b :
  extends st st' -> names_symptom st b -> names_symptom st' b.
Proof.
  intros (Hg & Hs & _) (s & Hin & Hl). exists s.
  split; [by apply Hs|]. by eapply grows_lookup.
Qed.

Lemma kb_link_extends st st' :
  extends st st' -> same_records st st' -> kb_link st -> kb_link st'.
Proof.
  intros Hext (Hh & Ht & Hs & Hd) [L1 L2 L3]. split.
  - intros s. rewrite Hs, Hh. intros Hin.
    destruct (L1 s Hin) as (a & v & Hl & Hf). exists a, v.
    split; [|done]. destruct Hext as (Hg & _). by eapply grows_lookup.
  - intros a b. rewrite Hh. intros Hin. destruct (L2 a b Hin).
    split; [by eapply names_disease_extends | by eapply names_symptom_extends].
  - intros t d. rewrite Ht. intros Hin.
    eapply names_disease_extends; [done | by eapply L3].
Qed.

Lemma lookup_or_intern_same_records n st :
  same_records st (lookup_or_intern n st).2.
Proof. unfold lookup_or_intern. by destruct (str_to_id st !! n). Qed.

Lemma kb_link_lookup_or_intern n st :
  kb_link st -> kb_link (lookup_or_intern n st).2.
Proof.
  apply kb_link_extends;
    [apply lookup_or_intern_extends | apply lookup_or_intern_same_records].
Qed.

Lemma kb_link_add_disease t st : kb_link st -> kb_link (add_disease t st).
Proof.
  assert (extends st (add_disease t st)) as Hext.
  { split; [by unfold grows|]. cbn. set_solver. }
  intros [L1 L2 L3]. split; cbn.
  - exact L1.
  - intros a b Hin. destruct (L2 a b Hin). split.
    + by eapply names_disease_extends.
    + by eapply names_symptom_extends.
  - intros x d Hin. eapply names_disease_extends; [done | by eapply L3].
Qed.

Lemma kb_link_record_symptom st a v t :
  kb_link st -> names_disease st a -> str_to_id st !! clean t = Some v ->
  kb_link (add_symptom t (add_has_symptom (a, v) st)).
Proof.
  intros [L1 L2 L3] Ha Hv.
  assert (extends st (add_symptom t (add_has_symptom (a, v) st))) as Hext.
  { split; [by unfold grows|]. cbn. set_solver. }
  assert (names_symptom (add_symptom t (add_has_symptom (a, v) st)) v) as Hsv.
  { exists t. cbn. split; [set_solver | done]. }
  split; cbn.
  - intros s [->%elem_of_singleton | Hin]%elem_of_union.
    + exists a, v. split; [done|]. apply elem_of_app. right.
      by apply list_elem_of_singleton.
    + destruct (L1 s Hin) as (a' & v' & ? & ?). exists a', v'.
      split; [done|]. apply elem_of_app. by left.
  - intros a' b' [Hin | [= -> ->]%list_elem_of_singleton]%elem_of_app.
    + destruct (L2 a' b' Hin). split.
      * by eapply names_disease_extends.
      * by eapply names_symptom_extends.
    + split; [by eapply names_disease_extends | done].
  - intros x d Hin. eapply names_disease_extends; [done | by eapply L3].
Qed.

Lemma kb_link_record_treatment st v d :
  kb_link st -> names_disease st d -> kb_link (add_treated_with (v, d) st).
Proof.
  intros [L1 L2 L3] Hd. split; cbn; [done..|].
  intros x d' [Hin | [= -> ->]%list_elem_of_singleton]%elem_of_app;
    [by eapply L3 | done].
Qed.

Lemma symptom_body_link did x st :
  keeps (link_inv did) st (symptom_body did x st).2.
Proof.
  intros [Hl Hd]. destruct (element_name x) as [t|] eqn:Hx.
  - rewrite (symptom_body_element did x t st Hx).
    pose proof (lookup_or_intern_extends (clean t) st) as Hext.
    pose proof (kb_link_lookup_or_intern (clean t) st Hl) as Hl1.
    pose proof (lookup_or_intern_lookup (clean t) st) as Hv.
    destruct did as [a|]; cbn.
    + assert (names_disease (lookup_or_intern (clean t) st).2 a) as Ha.
      { eapply names_disease_extends; [done | by apply Hd]. }
      split; [by apply kb_link_record_symptom|].
      intros ? [= <-]. eapply names_disease_extends; [|exact Ha].
      split; [by unfold grows|]. cbn. set_solver.
    + split; [done|]. intros; done.
  - destruct (symptom_body_stop did x st Hx) as [e ->]. by split.
Qed.

Lemma treatment_body_link did x st :
  keeps (link_inv did) st (treatment_body did x st).2.
Proof.
  intros [Hl Hd]. destruct (element_name x) as [t|] eqn:Hx.
  - rewrite (treatment_body_element did x t st Hx).
    pose proof (lookup_or_intern_extends (clean t) st) as Hext.
    pose proof (kb_link_lookup_or_intern (clean t) st Hl) as Hl1.
    destruct did as [a|]; cbn.
    + assert (names_disease (lookup_or_intern (clean t) st).2 a) as Ha.
      { eapply names_disease_extends; [done | by apply Hd]. }
      split; [by apply kb_link_record_treatment|].
      intros ? [= <-]. exact Ha.
    + split; [done|]. intros; done.
  - destruct (treatment_body_stop did x st Hx) as [e ->]. by split.
Qed.

Lemma row_start_link r st :
  kb_link st -> link_inv (row_start r st).1 (row_start r st).2.
Proof.
  intros Hl. unfold row_start.
  destruct (String.eqb_spec (row_name r) EmptyString) as [E|E]; cbn.
  - split; [by apply kb_link_add_disease | done].
  - split; [by apply kb_link_add_disease, kb_link_lookup_or_intern|].
    intros a [= <-]. exists (row_name r). cbn.
    split; [set_solver|]. split; [done|]. apply lookup_or_intern_lookup.
Qed.

Lemma load_row_link literal_eval r st :
  kb_link st -> kb_link (load_row literal_eval r st).
Proof.
  intros Hl. rewrite load_row_unfold.
  pose proof (row_start_link r st Hl) as H0.
  set (did := (row_start r st).1) in *.
  apply (load_cell_rel literal_eval (keeps (link_inv did))
           (row_treatments r) _ (treatment_body_link did)).
  by apply (load_cell_rel literal_eval (keeps (link_inv did))
              (row_symptoms r) _ (symptom_body_link did)).
Qed.

Lemma load_rows_link literal_eval rows : kb_link (load_rows literal_eval rows).
Proof.
  unfold load_rows.
  assert (kb_link init) as H.
  { split; cbn; intros; by (set_solver || (exfalso; by eapply elem_of_nil)). }
  revert H. generalize init.
  induction rows as [|r rows IH]; intros st H; cbn; [done|].
  by apply IH, load_row_link.
Qed.

Lemma sorted_nil_inv (X : gset string) : sorted X = [] -> X = ∅.
Proof.
  intros E. apply set_eq. intros x. rewrite <- elem_of_sorted, E.
  split; [by intros ?%elem_of_nil | set_solver].
Qed.

(** X9. Every symptom the select box offers has a disease: the loader lists
    a symptom only together with a fact about it, so diagnosing an offered
    symptom returns at least one name. *)
Theorem offered_symptom_has_disease (literal_eval : string -> option pyval)
    (rows : list row) (s : string) :
  s ∈ symptoms (load_rows literal_eval rows) ->
  ∃ l, (diseasesWith (Some s) (load_rows literal_eval rows)).1 = Ret l
       ∧ l ≠ [].
Proof.
  intros Hs%elem_of_symptoms.
  pose proof (load_rows_inv literal_eval rows) as Hinv.
  pose proof (load_rows_link literal_eval rows) as Hlink.
  destruct (inv_all_symptoms _ Hinv s Hs) as [Hne _].
  destruct (link_symptom _ Hlink s Hs) as (a & v & Hv & Hf).
  pose proof (run_op_id DiseasesWith (Some s) _ v _
                (get_id_known s v _ Hne Hv)) as Hrun.
  cbn [run_op] in Hrun. rewrite Hrun.
  eexists. split; [done|]. intros E%sorted_nil_inv.
  assert (get_name (load_rows literal_eval rows) a ∈ (∅ : gset string))
    as Hin; [|set_solver].
  rewrite <- E. apply elem_of_names. exists a. split; [|done].
  cbn [answers]. by apply elem_of_select_fst.
Qed.

Lemma offered_symptom_has_disease_witness :
  ∃ l, (diseasesWith (Some "dieback") spec_kb).1 = Ret l ∧ l ≠ [].
Proof.
  apply (offered_symptom_has_disease Literal.literal_eval spec_table).
  vm_compute. apply list_elem_of_here.
Defined.

(** X10. Every answer comes from the table: a disease named by
    [diseasesWith] is the cleaned form of a name in the list of diseases,
    and a symptom named by [symptomsOf] is the cleaned form of a name in
    the list of symptoms. *)
Theorem answers_come_from_lists (literal_eval : string -> option pyval)
    (rows : list row) (n : string) :
  counter (load_rows literal_eval rows) < 2 ^ 32 ->
  n ≠ EmptyString ->
  (∃ l, (diseasesWith (Some n) (load_rows literal_eval rows)).1 = Ret l
        ∧ ∀ x, x ∈ l ->
            ∃ d, d ∈ diseases (load_rows literal_eval rows) ∧ x = clean d)
  ∧ (∃ l, (symptomsOf (Some n) (load_rows literal_eval rows)).1 = Ret l
          ∧ ∀ x, x ∈ l ->
              ∃ s, s ∈ symptoms (load_rows literal_eval rows) ∧ x = clean s).
Proof.
  intros Hb Hn.
  pose proof (load_rows_inv literal_eval rows) as Hinv.
  pose proof (load_rows_link literal_eval rows) as Hlink.
  generalize dependent (load_rows literal_eval rows). intros st Hb Hinv Hlink.
  split.
  - destruct (run_op_spec DiseasesWith n st Hinv Hb Hn)
      as (X & st' & Hrun & HX & _).
    cbn [run_op related] in *. rewrite Hrun. eexists. split; [done|].
    intros x (a & b & Hx & _ & Hf)%elem_of_sorted%HX.
    destruct (link_has _ Hlink a b Hf) as [(d & Hd & _ & Hl) _].
    exists d. split; [by apply elem_of_diseases|].
    apply (str_to_id_inj st x (clean d) a Hinv); [lia|done..].
  - destruct (run_op_spec SymptomsOf n st Hinv Hb Hn)
      as (X & st' & Hrun & HX & _).
    cbn [run_op related] in *. rewrite Hrun. eexists. split; [done|].
    intros x (a & b & _ & Hx & Hf)%elem_of_sorted%HX.
    destruct (link_has _ Hlink a b Hf) as [_ (s & Hs & Hl)].
    exists s. split; [by apply elem_of_symptoms|].
    apply (str_to_id_inj st x (clean s) b Hinv); [lia|done..].
Qed.

Lemma answers_come_from_lists_witness :
  (∃ l, (diseasesWith (Some "leaf spot") quoted_kb).1 = Ret l
        ∧ ∀ x, x ∈ l -> ∃ d, d ∈ diseases quoted_kb ∧ x = clean d)
  ∧ (∃ l, (symptomsOf (Some "leaf spot") quoted_kb).1 = Ret l
          ∧ ∀ x, x ∈ l -> ∃ s, s ∈ symptoms quoted_kb ∧ x = clean s).
Proof.
  apply (answers_come_from_lists Literal.literal_eval quoted_table).
  - vm_compute. reflexivity.
  - discriminate.
Defined.

(** ** Rows the loader records nothing or something unexpected for *)

Global Instance same_records_refl : Reflexive same_records.
Proof. by intros st. Qed.

Global Instance same_records_trans : Transitive same_records.
Proof.
  intros st1 st2 st3 (?&?&?&?) (?&?&?&?). unfold same_records.
  split_and!; congruence.
Qed.

Lemma for_each_raising {A} (body : A -> M unit) (l : list A) st :
  (∀ x st, ∃ e, (body x st).1 = Raise e) ->
  (for_each body l st).2
  = match l with [] => st | x :: _ => (body x st).2 end.
Proof.
  intros Hraise. destruct l as [|x l]; [done|]. cbn. unfold bind.
  destruct (Hraise x st) as [e He].
  destruct (body x st) as [[[]|e'] st1]; cbn in *; done.
Qed.

Lemma body_without_disease (f : option Z -> pyval -> M unit) :
  f = symptom_body ∨ f = treatment_body ->
  ∀ x st, (∃ e, (f None x st).1 = Raise e)
          ∧ interns_at_most 1 st (f None x st).2.
Proof.
  intros Hf x st.
  assert (interns_at_most 1 st st) as Hsame.
  { split; [reflexivity | lia]. }
  destruct (element_name x) as [t|] eqn:Hx.
  - assert (interns_at_most 1 st (lookup_or_intern (clean t) st).2) as Hi.
    { split; [apply lookup_or_intern_same_records|].
      apply lookup_or_intern_counter. }
    destruct Hf as [-> | ->].
    + rewrite (symptom_body_element None x t st Hx). split; [by eexists|done].
    + rewrite (treatment_body_element None x t st Hx).
      split; [by eexists|done].
  - destruct Hf as [-> | ->].
    + destruct (symptom_body_stop None x st Hx) as [e ->].
      split; [by eexists|done].
    + destruct (treatment_body_stop None x st Hx) as [e ->].
      split; [by eexists|done].
Qed.

Lemma load_cell_without_disease literal_eval cell f st :
  f = symptom_body ∨ f = treatment_body ->
  interns_at_most 1 st (load_cell literal_eval cell (f None) st).
Proof.
  intros Hf.
  assert (interns_at_most 1 st st) as Hsame.
  { split; [reflexivity | lia]. }
  unfold load_cell. destruct cell as [text|]; [|done].
  destruct (String.eqb text EmptyString); [done|].
  destruct (literal_eval text) as [v|]; [|done].
  destruct (iter v) as [items|]; [|done].
  unfold try_pass. rewrite for_each_raising.
  - destruct items as [|x items]; [done|]. by apply body_without_disease.
  - intros x st'. by apply body_without_disease.
Qed.

(** X6. A row whose name is empty records nothing: the empty name goes into
    the list of diseases, both relations and the list of symptoms stay as
    they were whatever the cells hold, and at most the first element of
    each cell is interned before the relation call on the missing
    identifier stops the loop. *)
Theorem nameless_row_records_nothing (literal_eval : string -> option pyval)
    (r : row) (st : kb) :
  row_name r = EmptyString ->
  has_symptom (load_row literal_eval r st) = has_symptom st
  ∧ treated_with (load_row literal_eval r st) = treated_with st
  ∧ all_symptoms (load_row literal_eval r st) = all_symptoms st
  ∧ all_diseases (load_row literal_eval r st)
    = {[EmptyString]} ∪ all_diseases st
  ∧ counter st ≤ counter (load_row literal_eval r st) ≤ counter st + 2.
Proof.
  intros Hname. rewrite load_row_unfold.
  assert (row_start r st = (None, add_disease EmptyString st)) as ->.
  { unfold row_start. by rewrite Hname. }
  cbn [fst snd].
  destruct (load_cell_without_disease literal_eval (row_symptoms r)
              symptom_body (add_disease EmptyString st))
    as [(H1 & H2 & H3 & H4) H5]; [by left|].
  revert H1 H2 H3 H4 H5.
  generalize (load_cell literal_eval (row_symptoms r) (symptom_body None)
                (add_disease EmptyString st)).
  intros st1 H1 H2 H3 H4 H5.
  destruct (load_cell_without_disease literal_eval (row_treatments r)
              treatment_body st1) as [(G1 & G2 & G3 & G4) G5]; [by right|].
  cbn in *. split_and!; try congruence; lia.
Qed.

Lemma nameless_row_records_nothing_witness :
  has_symptom (load_row Literal.literal_eval
                 (Row EmptyString (Some "['leaf spot']") (Some "['sulphur']"))
                 spec_kb)
  = has_symptom spec_kb.
Proof.
  by destruct (nameless_row_records_nothing Literal.literal_eval
                 (Row EmptyString (Some "['leaf spot']") (Some "['sulphur']"))
                 spec_kb eq_refl) as [H _].
Defined.

Lemma load_cell_unreadable literal_eval cell body st :
  unreadable literal_eval cell -> load_cell literal_eval cell body st = st.
Proof.
  unfold unreadable, load_cell. destruct cell as [text|]; [|done].
  destruct (String.eqb_spec text EmptyString) as [E|E]; [done|].
  intros [? | [-> | (v & -> & ->)]]; done.
Qed.

Global Instance same_treated_refl : Reflexive same_treated.
Proof. by intros st. Qed.

Global Instance same_treated_trans : Transitive same_treated.
Proof. intros st1 st2 st3. unfold same_treated. congruence. Qed.

Lemma symptom_body_same_treated did x st :
  same_treated st (symptom_body did x st).2.
Proof.
  unfold same_treated.
  destruct (element_name x) as [t|] eqn:Hx.
  - rewrite (symptom_body_element did x t st Hx).
    destruct (lookup_or_intern_same_records (clean t) st) as (_ & Ht & _).
    destruct did; cbn; done.
  - by destruct (symptom_body_stop did x st Hx) as [e ->].
Qed.

(** X7. A row whose treatments cell is absent, empty, not a literal or not
    iterable loads exactly like the row without that cell: its symptoms
    are recorded as usual and the relation [treated_with] stays as it
    was. *)
Theorem unreadable_treatments_cell (literal_eval : string -> option pyval)
    (r : row) (st : kb) :
  unreadable literal_eval (row_treatments r) ->
  load_row literal_eval r st
  = load_row literal_eval (Row (row_name r) (row_symptoms r) None) st
  ∧ treated_with (load_row literal_eval r st) = treated_with st.
Proof.
  intros Hun. rewrite !load_row_unfold.
  rewrite (load_cell_unreadable _ (row_treatments r)) by done.
  split; [done|].
  transitivity (treated_with (row_start r st).2).
  - apply (load_cell_rel literal_eval same_treated).
    apply symptom_body_same_treated.
  - unfold row_start. destruct (String.eqb (row_name r) EmptyString); cbn;
      [done|].
    by destruct (lookup_or_intern_same_records (clean (row_name r)) st)
      as (_ & ? & _).
Qed.

Lemma unreadable_treatments_cell_witness :
  treated_with (load_row Literal.literal_eval
                  (Row "Rust" (Some "['leaf spot']") (Some "sulphur")) spec_kb)
  = treated_with spec_kb.
Proof.
  destruct (unreadable_treatments_cell Literal.literal_eval
              (Row "Rust" (Some "['leaf spot']") (Some "sulphur")) spec_kb)
    as [_ H]; [|exact H].
  right. left. vm_compute. reflexivity.
Defined.






(** ** The two handlers *)

Lemma solve_var_bv_rows tuples f x k :
  solve tuples (Atom f (TVar x) (TBV k))
  = (fun a => [a]) <$> (filter (fun p : Z * Z => p.2 = k) tuples).*1.
Proof.
  unfold solve. induction tuples as [|[a b] tuples IH]; [done|].
  rewrite filter_cons. cbn.
  destruct (decide (k = b)) as [->|Hne]; cbn.
  - rewrite decide_True by done. cbn. by rewrite IH.
  - rewrite decide_False by (cbn; congruence). exact IH.
Qed.

Lemma solve_bv_var_rows tuples f x k :
  solve tuples (Atom f (TBV k) (TVar x))
  = (fun b => [b]) <$> (filter (fun p : Z * Z => p.1 = k) tuples).*2.
Proof.
  unfold solve. induction tuples as [|[a b] tuples IH]; [done|].
  rewrite filter_cons. cbn.
  destruct (decide (k = a)) as [->|Hne]; cbn.
  - rewrite decide_True by done. cbn. by rewrite IH.
  - rewrite decide_False by (cbn; congruence). exact IH.
Qed.

Lemma sorted_names_nil st (l : list Z) : sorted (names st l) = [] ↔ l = [].
Proof.
  split.
  - intros E%sorted_nil_inv. destruct l as [|v l]; [done|].
    assert (get_name st v ∈ names st (v :: l)) as Hin.
    { apply elem_of_names. exists v. split; [by left | done]. }
    rewrite E in Hin. set_solver.
  - intros ->. apply sorted_empty.
Qed.

(** A query answers [sat] exactly when the list of names is not empty. *)
Lemma op_ask_result o k st :
  op_ask o k st
  = (Ret match sorted (names st (answers o st k)) with
         | [] => None
         | _ :: _ => Some (sorted (names st (answers o st k)))
         end, st).
Proof.
  assert (∀ f q (sel : list Z) (g : Z -> list Z),
            (∀ a, g a = [a]) ->
            solve (tuples st f) q = g <$> sel -> a_rel q = f ->
            (let! q' := lift (Ret q) in
             fun st =>
               match query st q' with
               | sat => (Ret (Some (parse_results st (get_answer st q'))), st)
               | unsat => (Ret None, st)
               end) st
            = (Ret match sorted (names st sel) with
                   | [] => None
                   | _ :: _ => Some (sorted (names st sel))
                   end, st)) as Hgen.
  { intros f q sel g Hg Hsolve Hrel. unfold bind, lift, query, get_answer.
    rewrite Hrel, Hsolve.
    assert (concat (g <$> sel) = sel) as Hconcat.
    { clear -Hg. induction sel as [|a sel IH]; cbn; [done|].
      by rewrite Hg, IH. }
    destruct sel as [|a sel].
    - by rewrite (proj2 (sorted_names_nil st []) eq_refl).
    - rewrite fmap_cons. cbn beta iota.
      rewrite <- fmap_cons, parse_results_to_formula, Hconcat.
      destruct (sorted (names st (a :: sel))) eqn:E; [|done].
      by apply sorted_names_nil in E. }
  destruct o; cbn [op_ask answers]; unfold ask, call, cast.
  - apply (Hgen has_symptom_rel _ _ (fun b => [b])); [done| |done].
    apply solve_bv_var_rows.
  - apply (Hgen treated_with_rel _ _ (fun b => [b])); [done| |done].
    apply solve_var_bv_rows.
  - apply (Hgen has_symptom_rel _ _ (fun b => [b])); [done| |done].
    apply solve_var_bv_rows.
  - apply (Hgen cures_symptom_rel _ _ (fun b => [b])); [done| |done].
    apply solve_var_bv_rows.
Qed.

Lemma run_op_known o s k st :
  s ≠ EmptyString -> str_to_id st !! clean s = Some k ->
  run_op o (Some s) st = (Ret (sorted (names st (answers o st k))), st).
Proof. intros Hs Hk. by apply run_op_id, get_id_known. Qed.

Lemma on_diagnose_known s st :
  s ≠ EmptyString ->
  on_diagnose (Some s) st
  = (diagnosis_page
       (sorted (names (lookup_or_intern (clean s) st).2
                  (answers DiseasesWith (lookup_or_intern (clean s) st).2
                     (lookup_or_intern (clean s) st).1)))
       (sorted (names (lookup_or_intern (clean s) st).2
                  (answers TreatmentsFor (lookup_or_intern (clean s) st).2
                     (lookup_or_intern (clean s) st).1))),
     (lookup_or_intern (clean s) st).2).
Proof.
  intros Hs. unfold on_diagnose. rewrite (get_id_selected s st Hs).
  generalize (lookup_or_intern (clean s) st).1.
  generalize (lookup_or_intern (clean s) st).2. intros st1 k.
  change (ask has_symptom_rel (AConst "d") (AId (Some k)))
    with (op_ask DiseasesWith k).
  rewrite op_ask_result.
  destruct (sorted (names st1 (answers DiseasesWith st1 k))) as [|d ds];
    [done|].
  change (ask cures_symptom_rel (AConst "t") (AId (Some k)))
    with (op_ask TreatmentsFor k).
  rewrite op_ask_result.
  by destruct (sorted (names st1 (answers TreatmentsFor st1 k))).
Qed.

Lemma on_get_info_known d st :
  d ≠ EmptyString ->
  on_get_info (Some d) st
  = (info_page
       (sorted (names (lookup_or_intern (clean d) st).2
                  (answers SymptomsOf (lookup_or_intern (clean d) st).2
                     (lookup_or_intern (clean d) st).1)))
       (sorted (names (lookup_or_intern (clean d) st).2
                  (answers TreatmentsOf (lookup_or_intern (clean d) st).2
                     (lookup_or_intern (clean d) st).1))),
     (lookup_or_intern (clean d) st).2).
Proof.
  intros Hd. unfold on_get_info. rewrite (get_id_selected d st Hd).
  generalize (lookup_or_intern (clean d) st).1.
  generalize (lookup_or_intern (clean d) st).2. intros st1 k.
  change (ask has_symptom_rel (AId (Some k)) (AConst "s"))
    with (op_ask SymptomsOf k).
  rewrite op_ask_result.
  change (ask treated_with_rel (AConst "t") (AId (Some k)))
    with (op_ask TreatmentsOf k).
  rewrite op_ask_result. unfold info_page.
  destruct (sorted (names st1 (answers SymptomsOf st1 k)));
    destruct (sorted (names st1 (answers TreatmentsOf st1 k))); done.
Qed.

(** X15. The "Diagnose Problem" button renders what the two queries return:
    for a non-empty selection the page is the divider, then the warning
    when [diseasesWith] is empty, else one line per disease followed by the
    treatments of [treatmentsFor], or a notice when there are none. *)
Theorem diagnose_renders_queries (s : string) (st : kb) :
  s ≠ EmptyString ->
  ∃ ds ts st1,
    diseasesWith (Some s) st = (Ret ds, st1)
    ∧ treatmentsFor (Some s) st1 = (Ret ts, st1)
    ∧ on_diagnose (Some s) st = (diagnosis_page ds ts, st1).
Proof.
  intros Hs. eexists _, _, _.
  split; [apply (run_op_id DiseasesWith), (get_id_selected s st Hs)|].
  split; [|by apply on_diagnose_known].
  apply (run_op_known TreatmentsFor); [done|].
  apply lookup_or_intern_lookup.
Qed.

Lemma diagnose_renders_queries_witness :
  ∃ ds ts st1,
    diseasesWith (Some "dieback") spec_kb = (Ret ds, st1)
    ∧ treatmentsFor (Some "dieback") st1 = (Ret ts, st1)
    ∧ on_diagnose (Some "dieback") spec_kb = (diagnosis_page ds ts, st1).
Proof. apply (diagnose_renders_queries "dieback" spec_kb). discriminate. Defined.

(** X16. The "Get Info" button renders what [symptomsOf] and [treatmentsOf]
    return for a non-empty selection, each list under its heading, with a
    notice in place of an empty list. *)
Theorem get_info_renders_queries (d : string) (st : kb) :
  d ≠ EmptyString ->
  ∃ ss ts st1,
    symptomsOf (Some d) st = (Ret ss, st1)
    ∧ treatmentsOf (Some d) st1 = (Ret ts, st1)
    ∧ on_get_info (Some d) st = (info_page ss ts, st1).
Proof.
  intros Hd. eexists _, _, _.
  split; [apply (run_op_id SymptomsOf), (get_id_selected d st Hd)|].
  split; [|by apply on_get_info_known].
  apply (run_op_known TreatmentsOf); [done|].
  apply lookup_or_intern_lookup.
Qed.

Lemma get_info_renders_queries_witness :
  ∃ ss ts st1,
    symptomsOf (Some "Husk Rot") spec_kb = (Ret ss, st1)
    ∧ treatmentsOf (Some "Husk Rot") st1 = (Ret ts, st1)
    ∧ on_get_info (Some "Husk Rot") spec_kb = (info_page ss ts, st1).
Proof.
  apply (get_info_renders_queries "Husk Rot" spec_kb). discriminate.
Defined.

Lemma on_diagnose_nothing_selected sel st :
  sel = None ∨ sel = Some EmptyString ->
  on_diagnose sel st = ([st_divider; st_exception Z3Exception], st).
Proof. by intros [-> | ->]. Qed.

(** X17. The notice "No specific chemical treatment listed." is never
    rendered: it sits behind a [sat] answer with an empty list of names,
    and a [sat] answer always names something. *)
Theorem no_specific_treatment_is_dead (sel : option string) (st : kb) :
  st_info "No specific chemical treatment listed." ∉ (on_diagnose sel st).1.
Proof.
  assert (sel = None ∨ sel = Some EmptyString
          ∨ ∃ s, sel = Some s ∧ s ≠ EmptyString) as [H | [H | (s & -> & Hs)]].
  { destruct sel as [s|]; [|by left]. right.
    destruct (String.eqb_spec s EmptyString) as [->|]; [by left|].
    right. by exists s. }
  - rewrite on_diagnose_nothing_selected by by left. set_solver.
  - rewrite on_diagnose_nothing_selected by by right. set_solver.
  - rewrite (on_diagnose_known s st Hs). cbn [fst]. unfold diagnosis_page.
    generalize (sorted (names (lookup_or_intern (clean s) st).2
                  (answers TreatmentsFor (lookup_or_intern (clean s) st).2
                     (lookup_or_intern (clean s) st).1))).
    generalize (sorted (names (lookup_or_intern (clean s) st).2
                  (answers DiseasesWith (lookup_or_intern (clean s) st).2
                     (lookup_or_intern (clean s) st).1))).
    intros ds ts. rewrite not_elem_of_cons. split; [done|].
    destruct ds as [|d ds]; [set_solver|].
    rewrite not_elem_of_app. split.
    + intros (x & Hx & _)%list_elem_of_fmap. discriminate.
    + rewrite not_elem_of_cons. split; [|apply not_elem_of_nil].
      by destruct ts.
Qed.

Lemma lookup_or_intern_known n v st :
  str_to_id st !! n = Some v -> lookup_or_intern n st = (v, st).
Proof. intros H. unfold lookup_or_intern. by rewrite H. Qed.

Lemma handle_offered ev st :
  kb_inv st -> offered st ev -> (handle ev st).2 = st.
Proof.
  intros Hinv Hev. destruct ev as [|sel|sel]; cbn [handle offered] in *.
  - done.
  - destruct Hev as [-> | (s & -> & Hs%elem_of_symptoms)]; [done|].
    destruct (inv_all_symptoms st Hinv s Hs) as [Hne [v Hv]].
    rewrite on_diagnose_known by done. cbn [snd].
    by rewrite (lookup_or_intern_known _ v).
  - destruct Hev as [-> | (d & -> & Hd%elem_of_diseases)]; [done|].
    destruct (inv_all_diseases st Hinv d Hd) as [-> | [v Hv]]; [done|].
    destruct (String.eqb_spec d EmptyString) as [->|Hne]; [done|].
    rewrite on_get_info_known by done. cbn [snd].
    by rewrite (lookup_or_intern_known _ v).
Qed.

(** C4. After loading, the state is immutable.  The queries get their
    argument from a select box, which holds nothing or one of the names of
    the list it offers; with such an argument none of the four queries and
    neither handler changes any component of the state (relations,
    dictionaries, counter, lists), however many runs follow one another.
    Whatever the argument, no query touches the relations or the lists,
    and none removes or changes an entry of the dictionaries. *)
Theorem state_is_immutable_after_load (literal_eval : string -> option pyval)
    (rows : list row) :
  (∀ o sel,
     sel = None
     ∨ (∃ s, sel = Some s
             ∧ (s ∈ symptoms (load_rows literal_eval rows)
                ∨ s ∈ diseases (load_rows literal_eval rows))) ->
     (run_op o sel (load_rows literal_eval rows)).2
     = load_rows literal_eval rows)
  ∧ (∀ ev, offered (load_rows literal_eval rows) ev ->
           (handle ev (load_rows literal_eval rows)).2
           = load_rows literal_eval rows)
  ∧ (∀ evs, Forall (offered (load_rows literal_eval rows)) evs ->
            (run_events evs (load_rows literal_eval rows)).2
            = load_rows literal_eval rows)
  ∧ (∀ o sel,
       has_symptom (run_op o sel (load_rows literal_eval rows)).2
       = has_symptom (load_rows literal_eval rows)
       ∧ treated_with (run_op o sel (load_rows literal_eval rows)).2
         = treated_with (load_rows literal_eval rows)
       ∧ all_symptoms (run_op o sel (load_rows literal_eval rows)).2
         = all_symptoms (load_rows literal_eval rows)
       ∧ all_diseases (run_op o sel (load_rows literal_eval rows)).2
         = all_diseases (load_rows literal_eval rows)
       ∧ str_to_id (load_rows literal_eval rows)
         ⊆ str_to_id (run_op o sel (load_rows literal_eval rows)).2
       ∧ id_to_str (load_rows literal_eval rows)
         ⊆ id_to_str (run_op o sel (load_rows literal_eval rows)).2).
Proof.
  pose proof (load_rows_inv literal_eval rows) as Hinv.
  generalize dependent (load_rows literal_eval rows). intros st Hinv.
  split_and!.
  - intros o sel Hsel. rewrite run_op_state.
    destruct Hsel as [-> | (s & -> & Hs)]; [done|].
    by apply get_id_option_unchanged.
  - intros ev Hev. by apply handle_offered.
  - intros evs Hevs. induction Hevs as [|ev evs Hev Hevs IH]; [done|].
    cbn. pose proof (handle_offered ev st Hinv Hev) as Hst.
    destruct (handle ev st) as [out st1]. cbn in Hst. subst st1.
    by destruct (run_events evs st) as [outs st2].
  - intros o sel. rewrite run_op_state.
    assert ((get_id (selected sel) st).2 = st
            ∨ ∃ n, str_to_id st !! n = None
                   ∧ (get_id (selected sel) st).2 = intern n st) as Hcases.
    { destruct sel as [s|]; [|by left].
      destruct (String.eqb_spec s EmptyString) as [->|Hne]; [by left|].
      rewrite get_id_selected by done. unfold lookup_or_intern.
      destruct (str_to_id st !! clean s) eqn:E; [by left|].
      right. by exists (clean s). }
    destruct Hcases as [-> | (n & Hn & ->)]; [done|].
    split_and!; try done.
    + by apply intern_grows.
    + by apply intern_id_to_str_grows.
Qed.

Lemma state_is_immutable_after_load_witness :
  (run_op TreatmentsFor (Some "dieback") spec_kb).2 = spec_kb
  ∧ (handle (GetInfo (Some "Husk Rot")) spec_kb).2 = spec_kb
  ∧ (run_events [DiagnoseProblem (Some "dieback"); GetInfo None] spec_kb).2
    = spec_kb.
Proof.
  destruct (state_is_immutable_after_load Literal.literal_eval spec_table)
    as (H1 & H2 & H3 & _).
  split; [|split].
  - apply H1. right. exists "dieback". split; [reflexivity|].
    left. vm_compute. apply list_elem_of_here.
  - apply H2. right. exists "Husk Rot". split; [reflexivity|].
    vm_compute. apply list_elem_of_further, list_elem_of_here.
  - apply H3. constructor; [|constructor; [|constructor]].
    + right. exists "dieback". split; [reflexivity|].
      vm_compute. apply list_elem_of_here.
    + by left.
Defined.

(** X19. However often the buttons are pressed, with whatever the select
    boxes offer, the state stays the one the loader built, so every run
    renders what it would render as the first run. *)
Theorem offered_events_keep_state (literal_eval : string -> option pyval)
    (rows : list row) (evs : list event) :
  Forall (offered (load_rows literal_eval rows)) evs ->
  run_events evs (load_rows literal_eval rows)
  = ((fun ev => (handle ev (load_rows literal_eval rows)).1) <$> evs,
     load_rows literal_eval rows).
Proof.
  pose proof (load_rows_inv literal_eval rows) as Hinv.
  generalize dependent (load_rows literal_eval rows). intros st Hinv Hevs.
  induction Hevs as [|ev evs Hev Hevs IH]; [done|].
  cbn. pose proof (handle_offered ev st Hinv Hev) as Hst.
  destruct (handle ev st) as [out st1]. cbn in Hst. subst st1.
  by rewrite IH.
Qed.

Lemma offered_events_keep_state_witness :
  run_events [DiagnoseProblem (Some "dieback"); GetInfo None;
              GetInfo (Some "Husk Rot")] spec_kb
  = ((fun ev => (handle ev spec_kb).1)
       <$> [DiagnoseProblem (Some "dieback"); GetInfo None;
            GetInfo (Some "Husk Rot")],
     spec_kb).
Proof.
  apply (offered_events_keep_state Literal.literal_eval spec_table).
  constructor; [|constructor; [|constructor; [|constructor]]].
  - right. exists "dieback". split; [done|]. vm_compute.
    apply list_elem_of_here.
  - by left.
  - right. exists "Husk Rot". split; [done|]. vm_compute.
    apply list_elem_of_further, list_elem_of_here.
Defined.

(** ** [parse_results] on any expression *)

Lemma expr_nested_ind (P : expr -> Prop) :
  (∀ v, P (BVNum v)) -> (∀ i, P (BoundVar i)) ->
  (∀ f args, Forall P args -> P (App f args)) ->
  ∀ e, P e.
Proof.
  intros Hbv Hvar Happ. fix IH 1. intros [v|i|f args].
  - apply Hbv.
  - apply Hvar.
  - apply Happ. induction args as [|e args IHargs]; constructor.
    + apply IH.
    + apply IHargs.
Qed.

Lemma collect_numerals st e acc :
  collect st e acc = names st (numerals e) ∪ acc.
Proof.
  revert acc. induction e as [v|i|f args IH] using expr_nested_ind;
    intros acc.
  - cbn. unfold names. cbn. set_solver.
  - cbn. unfold names. cbn. set_solver.
  - cbn [collect is_bv_value numerals]. revert acc.
    induction IH as [|e args He Hargs IHargs]; intros acc.
    + cbn. unfold names. cbn. set_solver.
    + cbn [fold_left fmap list_fmap concat]. rewrite He.
      change (list_fmap expr (list Z) numerals args)
        with (numerals <$> args).
      rewrite IHargs. unfold names.
      rewrite fmap_app, list_to_set_app_L. set_solver.
Qed.

(** X14. [parse_results] returns, in ascending order and without repeats,
    the names of all numerals that occur anywhere in the expression, and
    nothing else; a numeral that has no name appears as its decimal
    digits. *)
Theorem parse_results_collects_numerals (st : kb) (e : expr) :
  (∀ x, x ∈ parse_results st e ↔ ∃ v, v ∈ numerals e ∧ get_name st v = x)
  ∧ StronglySorted String.le (parse_results st e)
  ∧ NoDup (parse_results st e)
  ∧ (∀ v, v ∈ numerals e -> id_to_str st !! v = None ->
          str v ∈ parse_results st e).
Proof.
  assert (∀ x, x ∈ parse_results st e
               ↔ ∃ v, v ∈ numerals e ∧ get_name st v = x) as Hin.
  { intros x. unfold parse_results.
    rewrite elem_of_sorted, collect_numerals, elem_of_union, elem_of_names.
    set_solver. }
  split; [exact Hin|].
  split; [apply StronglySorted_sorted|]. split; [apply NoDup_sorted|].
  intros v Hv Hnone. apply Hin. exists v. split; [done|].
  unfold get_name. by rewrite Hnone.
Qed.

Lemma parse_results_collects_numerals_witness :
  str 9 ∈ parse_results spec_kb (App "=" [BoundVar 0; BVNum 9]).
Proof.
  destruct (parse_results_collects_numerals spec_kb
              (App "=" [BoundVar 0; BVNum 9])) as (_ & _ & _ & H).
  apply (H 9); [|vm_compute; reflexivity].
  cbn. apply list_elem_of_here.
Defined.

(** ** Cleaning *)

Lemma string_app_cons c s t : String c s +:+ t = String c (s +:+ t).
Proof. reflexivity. Qed.

Lemma string_app_nil_l t : EmptyString +:+ t = t.
Proof. reflexivity. Qed.

Lemma chars_app s1 s2 :
  String.list_ascii_of_string (s1 +:+ s2)
  = String.list_ascii_of_string s1 ++ String.list_ascii_of_string s2.
Proof.
  induction s1 as [|c s1 IH]; [done|].
  rewrite string_app_cons. cbn. by rewrite IH.
Qed.

Lemma chars_rev_app s1 s2 :
  String.list_ascii_of_string (String.rev_app s1 s2)
  = List.rev (String.list_ascii_of_string s1) ++ String.list_ascii_of_string s2.
Proof.
  revert s2. induction s1 as [|c s1 IH]; intros s2; cbn; [done|].
  rewrite IH. cbn. by rewrite <- app_assoc.
Qed.

Lemma chars_rev s :
  String.list_ascii_of_string (String.rev s) = List.rev (String.list_ascii_of_string s).
Proof. unfold String.rev. rewrite chars_rev_app. cbn. apply app_nil_r. Qed.

Lemma chars_inj s1 s2 :
  String.list_ascii_of_string s1 = String.list_ascii_of_string s2 -> s1 = s2.
Proof.
  intros H. rewrite <- (String.string_of_list_ascii_of_string s1),
    <- (String.string_of_list_ascii_of_string s2). by rewrite H.
Qed.

Lemma string_rev_rev s : String.rev (String.rev s) = s.
Proof. apply chars_inj. by rewrite !chars_rev, rev_involutive. Qed.

Lemma string_rev_app s1 s2 :
  String.rev (s1 +:+ s2) = String.rev s2 +:+ String.rev s1.
Proof.
  apply chars_inj. by rewrite chars_rev, !chars_app, !chars_rev, rev_app_distr.
Qed.

Lemma all_chars_rev p s : all_chars p (String.rev s) = all_chars p s.
Proof.
  unfold all_chars. rewrite chars_rev.
  induction (String.list_ascii_of_string s) as [|c l IH]; cbn; [done|].
  rewrite forallb_app, IH. cbn. destruct (p c), (forallb p l); done.
Qed.

Lemma lstrip_all p pad t :
  all_chars p pad = true -> lstrip p (pad +:+ t) = lstrip p t.
Proof.
  unfold all_chars. induction pad as [|c pad IH]; [done|].
  rewrite string_app_cons. cbn.
  intros [Hc Hpad]%andb_true_iff. rewrite Hc. by apply IH.
Qed.

Lemma lstrip_app p s t :
  lstrip p (s +:+ t)
  = match lstrip p s with
    | EmptyString => lstrip p t
    | String c u => String c u +:+ t
    end.
Proof.
  induction s as [|c s IH]; [done|].
  rewrite string_app_cons. cbn. by destruct (p c).
Qed.

Lemma string_app_nil_r s : s +:+ EmptyString = s.
Proof.
  induction s as [|c s IH]; [done|]. by rewrite string_app_cons, IH.
Qed.

Lemma rstrip_all p pad t :
  all_chars p pad = true -> rstrip p (t +:+ pad) = rstrip p t.
Proof.
  intros Hpad. unfold rstrip. rewrite string_rev_app, lstrip_all; [done|].
  by rewrite all_chars_rev.
Qed.

Lemma strip_padding p pad1 pad2 s :
  all_chars p pad1 = true -> all_chars p pad2 = true ->
  strip p (pad1 +:+ (s +:+ pad2)) = strip p s.
Proof.
  intros H1 H2. unfold strip. rewrite lstrip_all by done.
  rewrite lstrip_app. destruct (lstrip p s) as [|c u].
  - rewrite <- (string_app_nil_r pad2), lstrip_all by done. done.
  - by apply rstrip_all.
Qed.

(** X5. Blanks around a name never matter: [get_id] answers for a padded
    string exactly as for the string itself, in every state. *)
Theorem get_id_ignores_blanks (pad1 pad2 s : string) (st : kb) :
  all_chars isspace pad1 = true -> all_chars isspace pad2 = true ->
  s ≠ EmptyString ->
  clean (pad1 +:+ (s +:+ pad2)) = clean s
  ∧ get_id (PyStr (pad1 +:+ (s +:+ pad2))) st = get_id (PyStr s) st.
Proof.
  intros H1 H2 Hs.
  assert (clean (pad1 +:+ (s +:+ pad2)) = clean s) as Hclean.
  { unfold clean. by rewrite strip_padding. }
  split; [done|].
  assert (pad1 +:+ (s +:+ pad2) ≠ EmptyString) as Hne.
  { intros E. apply (f_equal String.list_ascii_of_string) in E.
    rewrite !chars_app in E. cbn in E.
    apply app_eq_nil in E as [_ [E _]%app_eq_nil].
    apply Hs, chars_inj. by rewrite E. }
  by rewrite !get_id_str, Hclean by done.
Qed.

Lemma get_id_ignores_blanks_witness :
  get_id (PyStr ("  " +:+ ("leaf spot" +:+ " "))) spec_kb
  = get_id (PyStr "leaf spot") spec_kb.
Proof.
  by destruct (get_id_ignores_blanks "  " " " "leaf spot" spec_kb)
    as [_ H].
Defined.

Lemma last_char_cons c s : is_Some (last_char (String c s)).
Proof.
  revert c. induction s as [|c' s IH]; intros c; cbn; [by eexists|].
  apply (IH c').
Qed.

Lemma first_char_rev_app s t :
  first_char (String.rev_app s t)
  = match last_char s with
    | Some c => Some c
    | None => first_char t
    end.
Proof.
  revert t. induction s as [|c s IH]; intros t; [done|].
  cbn [String.rev_app]. rewrite IH.
  destruct s as [|c' s]; [done|].
  destruct (last_char_cons c' s) as [c'' E].
  change (last_char (String c (String c' s)))
    with (last_char (String c' s)).
  by rewrite E.
Qed.

Lemma first_char_rev s : first_char (String.rev s) = last_char s.
Proof.
  unfold String.rev. rewrite first_char_rev_app. by destruct (last_char s).
Qed.

Lemma lstrip_fixed p s :
  (∀ c, first_char s = Some c -> p c = false) -> lstrip p s = s.
Proof.
  destruct s as [|c s]; [done|]. intros H. cbn. by rewrite (H c).
Qed.

Lemma rstrip_fixed p s :
  (∀ c, last_char s = Some c -> p c = false) -> rstrip p s = s.
Proof.
  intros H. unfold rstrip. rewrite lstrip_fixed; [apply string_rev_rev|].
  intros c. rewrite first_char_rev. apply H.
Qed.

Lemma strip_fixed p s :
  (∀ c, first_char s = Some c ∨ last_char s = Some c -> p c = false) ->
  strip p s = s.
Proof.
  intros H. unfold strip.
  rewrite lstrip_fixed by (intros; apply H; by left).
  apply rstrip_fixed. intros; apply H; by right.
Qed.

(** X4. A name that neither starts nor ends with a blank or a quote is kept
    as it is: cleaning does not change it, and [get_id] registers it under
    its own spelling. *)
Theorem trimmed_name_kept (s : string) (st : kb) :
  s ≠ EmptyString -> trimmed s = true ->
  clean s = s
  ∧ ∃ i st', get_id (PyStr s) st = (Ret (Some i), st')
             ∧ str_to_id st' !! s = Some i.
Proof.
  intros Hs Htr.
  assert (clean s = s) as Hclean.
  { destruct s as [|a s]; [done|].
    destruct (last_char_cons a s) as [b Hb].
    unfold trimmed in Htr. rewrite Hb in Htr. cbn [first_char] in Htr.
    apply andb_true_iff in Htr as [Ha Hb'].
    assert (∀ c, first_char (String a s) = Some c
                 ∨ last_char (String a s) = Some c -> bare c = true) as Hbare.
    { intros c [[= <-] | Hc]; [done|]. rewrite Hb in Hc. by injection Hc as <-. }
    assert (∀ p, (∀ c, bare c = true -> p c = false) ->
                 strip p (String a s) = String a s) as Hfix.
    { intros p Hp. apply strip_fixed. intros c Hc. by apply Hp, Hbare. }
    unfold clean.
    rewrite (Hfix isspace), (Hfix (Ascii.eqb single_quote)),
      (Hfix (Ascii.eqb double_quote)); [done|..];
      intros c; unfold bare;
      by destruct (isspace c), (Ascii.eqb single_quote c),
        (Ascii.eqb double_quote c). }
  split; [done|]. eexists _, _. split; [by apply (get_id_selected s)|].
  rewrite Hclean. apply lookup_or_intern_lookup.
Qed.

Lemma trimmed_name_kept_witness :
  clean "Husk Rot" = "Husk Rot"
  ∧ ∃ i st', get_id (PyStr "Husk Rot") init = (Ret (Some i), st')
             ∧ str_to_id st' !! "Husk Rot" = Some i.
Proof. apply (trimmed_name_kept "Husk Rot" init); [discriminate | done]. Defined.

(** ** What cleaning strips *)

Lemma first_char_app s t :
  first_char (s +:+ t)
  = match first_char s with
    | Some c => Some c
    | None => first_char t
    end.
Proof. by destruct s. Qed.

Lemma last_char_app s t :
  last_char (s +:+ t)
  = match last_char t with
    | Some c => Some c
    | None => last_char s
    end.
Proof.
  by rewrite <- !first_char_rev, string_rev_app, first_char_app.
Qed.

Lemma all_chars_first p s c :
  all_chars p s = true -> first_char s = Some c -> p c = true.
Proof.
  destruct s as [|a s]; [done|]. unfold all_chars. cbn.
  by intros [H _]%andb_true_iff [= <-].
Qed.

Lemma all_chars_last p s c :
  all_chars p s = true -> last_char s = Some c -> p c = true.
Proof. rewrite <- all_chars_rev, <- first_char_rev. apply all_chars_first. Qed.

Lemma ends_wrap q p pad1 pad2 s :
  (∀ c, p c = true -> q c = false) ->
  all_chars p pad1 = true -> all_chars p pad2 = true ->
  ends q s -> ends q (pad1 +:+ (s +:+ pad2)).
Proof.
  intros Hpq H1 H2 Hs c [Hc|Hc].
  - rewrite !first_char_app in Hc.
    destruct (first_char pad1) as [a|] eqn:E1.
    { injection Hc as <-. apply Hpq. by apply (all_chars_first p pad1). }
    destruct (first_char s) as [a|] eqn:E2.
    { injection Hc as <-. apply Hs. by left. }
    apply Hpq. by apply (all_chars_first p pad2).
  - rewrite !last_char_app in Hc.
    destruct (last_char pad2) as [a|] eqn:E1.
    { injection Hc as <-. apply Hpq. by apply (all_chars_last p pad2). }
    destruct (last_char s) as [a|] eqn:E2.
    { injection Hc as <-. apply Hs. by right. }
    apply Hpq. by apply (all_chars_last p pad1).
Qed.

Lemma ends_quoted q p pad1 pad2 s :
  (∀ c, p c = true -> q c = false) ->
  pad1 ≠ EmptyString -> pad2 ≠ EmptyString ->
  all_chars p pad1 = true -> all_chars p pad2 = true ->
  ends q (pad1 +:+ (s +:+ pad2)).
Proof.
  intros Hpq Hn1 Hn2 H1 H2 c [Hc|Hc].
  - rewrite first_char_app in Hc.
    destruct pad1 as [|a pad1]; [done|]. cbn in Hc. injection Hc as <-.
    apply Hpq. by apply (all_chars_first p (String a pad1)).
  - rewrite !last_char_app in Hc.
    destruct pad2 as [|a pad2]; [done|].
    destruct (last_char_cons a pad2) as [b Hb]. rewrite Hb in Hc.
    injection Hc as <-. apply Hpq.
    by apply (all_chars_last p (String a pad2)).
Qed.

Lemma strip_layer p pad1 pad2 s :
  all_chars p pad1 = true -> all_chars p pad2 = true -> ends p s ->
  strip p (pad1 +:+ (s +:+ pad2)) = s.
Proof. intros H1 H2 Hs. rewrite strip_padding by done. by apply strip_fixed. Qed.

Lemma trimmed_ends q s :
  (∀ c, bare c = true -> q c = false) -> trimmed s = true -> ends q s.
Proof.
  intros Hq Htr. destruct s as [|a s]; [by intros c [?|?]|].
  destruct (last_char_cons a s) as [b Hb].
  unfold trimmed in Htr. rewrite Hb in Htr. cbn [first_char] in Htr.
  apply andb_true_iff in Htr as [Ha Hb'].
  intros c [[= <-] | Hc]; [by apply Hq|].
  rewrite Hb in Hc. injection Hc as <-. by apply Hq.
Qed.

Lemma bare_not_space c : bare c = true -> isspace c = false.
Proof. unfold bare. by destruct (isspace c). Qed.

Lemma bare_not_single c : bare c = true -> Ascii.eqb single_quote c = false.
Proof.
  unfold bare. by destruct (isspace c), (Ascii.eqb single_quote c).
Qed.

Lemma bare_not_double c : bare c = true -> Ascii.eqb double_quote c = false.
Proof.
  unfold bare.
  by destruct (isspace c), (Ascii.eqb single_quote c),
    (Ascii.eqb double_quote c).
Qed.

Lemma quote_not_space q c :
  q = single_quote ∨ q = double_quote ->
  Ascii.eqb q c = true -> isspace c = false.
Proof. by intros [-> | ->] <-%Ascii.eqb_eq. Qed.

Lemma space_not_quote q c :
  q = single_quote ∨ q = double_quote ->
  isspace c = true -> Ascii.eqb q c = false.
Proof.
  intros Hq Hc. destruct (Ascii.eqb q c) eqn:E; [|done].
  by rewrite (quote_not_space q c Hq E) in Hc.
Qed.

Lemma double_not_single c :
  Ascii.eqb double_quote c = true -> Ascii.eqb single_quote c = false.
Proof. by intros <-%Ascii.eqb_eq. Qed.

Lemma single_not_double c :
  Ascii.eqb single_quote c = true -> Ascii.eqb double_quote c = false.
Proof. by intros <-%Ascii.eqb_eq. Qed.

(** Blanks, then single quotes, then double quotes around a core that has
    none of them at its ends: [clean] removes all three layers. *)
Lemma clean_layers ws1 ws2 sq1 sq2 dq1 dq2 core :
  all_chars isspace ws1 = true -> all_chars isspace ws2 = true ->
  all_chars (Ascii.eqb single_quote) sq1 = true ->
  all_chars (Ascii.eqb single_quote) sq2 = true ->
  all_chars (Ascii.eqb double_quote) dq1 = true ->
  all_chars (Ascii.eqb double_quote) dq2 = true ->
  trimmed core = true ->
  clean (ws1 +:+ ((sq1 +:+ ((dq1 +:+ (core +:+ dq2)) +:+ sq2)) +:+ ws2))
  = core.
Proof.
  intros Hw1 Hw2 Hs1 Hs2 Hd1 Hd2 Htr. unfold clean.
  rewrite (strip_layer isspace), (strip_layer (Ascii.eqb single_quote)),
    (strip_layer (Ascii.eqb double_quote)); try done.
  - by apply (trimmed_ends _ _ bare_not_double).
  - apply (ends_wrap _ (Ascii.eqb double_quote)); try done.
    + apply double_not_single.
    + by apply (trimmed_ends _ _ bare_not_single).
  - apply (ends_wrap _ (Ascii.eqb single_quote)); try done.
    { intros c. apply quote_not_space. by left. }
    apply (ends_wrap _ (Ascii.eqb double_quote)); try done.
    { intros c. apply quote_not_space. by right. }
    by apply (trimmed_ends _ _ bare_not_space).
Qed.

(** Blanks inside single quotes are out of reach of the one pass. *)
Lemma clean_keeps_inner_blanks sq1 sq2 ws1 ws2 core :
  sq1 ≠ EmptyString -> sq2 ≠ EmptyString ->
  all_chars (Ascii.eqb single_quote) sq1 = true ->
  all_chars (Ascii.eqb single_quote) sq2 = true ->
  all_chars isspace ws1 = true -> all_chars isspace ws2 = true ->
  trimmed core = true ->
  clean (sq1 +:+ ((ws1 +:+ (core +:+ ws2)) +:+ sq2))
  = ws1 +:+ (core +:+ ws2).
Proof.
  intros Hn1 Hn2 Hs1 Hs2 Hw1 Hw2 Htr. unfold clean.
  rewrite (strip_fixed isspace).
  2:{ apply (ends_quoted _ (Ascii.eqb single_quote)); try done.
      intros c. apply quote_not_space. by left. }
  rewrite (strip_layer (Ascii.eqb single_quote)); try done.
  - apply strip_fixed. apply (ends_wrap _ isspace); try done.
    + intros c. apply space_not_quote. by right.
    + by apply (trimmed_ends _ _ bare_not_double).
  - apply (ends_wrap _ isspace); try done.
    + intros c. apply space_not_quote. by left.
    + by apply (trimmed_ends _ _ bare_not_single).
Qed.

(** C10, amended. After loading, [get_id] gives two non-empty strings the
    same identifier exactly when their cleaned forms are equal.  Cleaning
    is one pass of [strip()], then [strip("'")], then the same for the
    double quote: blanks, then single quotes, then double quotes around a
    core that neither starts nor ends with one of them are all removed,
    but blanks inside single quotes stay.  Every name a query returns is a
    registered name, the cleaned form of a string given to [get_id]; and
    the list of symptoms holds the strings of the table as they were
    written. *)
Theorem get_id_merges_cleaned_names (literal_eval : string -> option pyval)
    (rows : list row) (a b : string) :
  counter (load_rows literal_eval rows) + 1 < 2 ^ 32 ->
  a ≠ EmptyString -> b ≠ EmptyString ->
  (∃ i j st1 st2,
     get_id (PyStr a) (load_rows literal_eval rows) = (Ret (Some i), st1)
     ∧ get_id (PyStr b) st1 = (Ret (Some j), st2)
     ∧ (i = j ↔ clean a = clean b))
  ∧ (∀ ws1 ws2 sq1 sq2 dq1 dq2 core,
       all_chars isspace ws1 = true -> all_chars isspace ws2 = true ->
       all_chars (Ascii.eqb single_quote) sq1 = true ->
       all_chars (Ascii.eqb single_quote) sq2 = true ->
       all_chars (Ascii.eqb double_quote) dq1 = true ->
       all_chars (Ascii.eqb double_quote) dq2 = true ->
       trimmed core = true ->
       clean (ws1 +:+ ((sq1 +:+ ((dq1 +:+ (core +:+ dq2)) +:+ sq2)) +:+ ws2))
       = core)
  ∧ (∀ sq1 sq2 ws1 ws2 core,
       sq1 ≠ EmptyString -> sq2 ≠ EmptyString ->
       all_chars (Ascii.eqb single_quote) sq1 = true ->
       all_chars (Ascii.eqb single_quote) sq2 = true ->
       all_chars isspace ws1 = true -> all_chars isspace ws2 = true ->
       trimmed core = true ->
       clean (sq1 +:+ ((ws1 +:+ (core +:+ ws2)) +:+ sq2))
       = ws1 +:+ (core +:+ ws2))
  ∧ (∀ o s l,
       (run_op o (Some s) (load_rows literal_eval rows)).1 = Ret l ->
       ∀ x, x ∈ l ->
            is_Some (str_to_id (load_rows literal_eval rows) !! x)
            ∧ ∃ raw, raw ≠ EmptyString ∧ x = clean raw)
  ∧ (∀ r text l,
       r ∈ rows -> row_name r ≠ EmptyString ->
       row_symptoms r = Some text -> text ≠ EmptyString ->
       literal_eval text = Some (PyList (PyStr <$> l)) ->
       Forall (fun t => t ≠ EmptyString) l ->
       ∀ s, s ∈ l -> s ∈ symptoms (load_rows literal_eval rows)).
Proof.
  intros Hb Ha Hb'.
  pose proof (load_rows_inv literal_eval rows) as Hinv.
  split; [by apply get_id_twice|].
  split; [apply clean_layers|].
  split; [apply clean_keeps_inner_blanks|].
  split.
  - intros o s l Hrun x Hx.
    destruct (String.eqb_spec s EmptyString) as [->|Hs].
    { by rewrite (run_op_none o _ _ (load_rows literal_eval rows)) in Hrun. }
    destruct (run_op_spec o s _ Hinv ltac:(lia) Hs)
      as (X & st' & Hrun' & HX & _).
    rewrite Hrun' in Hrun. cbn in Hrun. injection Hrun as <-.
    apply elem_of_sorted, HX, related_registered in Hx.
    split; [done|]. by apply (inv_clean _ Hinv).
  - intros r text l Hr Hname Hcell Htext Hval Hl s Hs.
    apply elem_of_symptoms.
    apply (fold_load_symptoms literal_eval rows r text l init); try done.
    by apply elem_of_list_to_set.
Qed.

Lemma get_id_merges_cleaned_names_witness :
  (∃ i j st1 st2,
     get_id (PyStr " 'Husk Rot'") (load_rows Literal.literal_eval padded_table)
     = (Ret (Some i), st1)
     ∧ get_id (PyStr "Husk Rot ") st1 = (Ret (Some j), st2)
     ∧ (i = j ↔ clean " 'Husk Rot'" = clean "Husk Rot "))
  ∧ clean (" " +:+ (("'" +:+ ((String double_quote EmptyString
                               +:+ ("Husk Rot"
                                    +:+ String double_quote EmptyString))
                              +:+ "'")) +:+ "  "))
    = "Husk Rot"
  ∧ clean ("'" +:+ ((EmptyString +:+ ("Husk Rot" +:+ " ")) +:+ "'"))
    = EmptyString +:+ ("Husk Rot" +:+ " ")
  ∧ (∃ raw, raw ≠ EmptyString ∧ "leaf spot" = clean raw)
  ∧ " leaf spot " ∈ symptoms (load_rows Literal.literal_eval padded_table).
Proof.
  destruct (get_id_merges_cleaned_names Literal.literal_eval padded_table
              " 'Husk Rot'" "Husk Rot ") as (H1 & H2 & H3 & H4 & H5).
  - vm_compute. reflexivity.
  - discriminate.
  - discriminate.
  - split; [exact H1|]. split; [|split; [|split]].
    + apply H2; reflexivity.
    + apply H3; try reflexivity; discriminate.
    + apply (H4 SymptomsOf "Husk Rot" ["leaf spot"]).
      * vm_compute. reflexivity.
      * apply list_elem_of_here.
    + apply (H5 (Row "Husk Rot" (Some "[' leaf spot ']")
                   (Some "['fungicide X']"))
                "[' leaf spot ']" [" leaf spot "]).
      * apply list_elem_of_here.
      * discriminate.
      * reflexivity.
      * discriminate.
      * vm_compute. reflexivity.
      * repeat constructor; discriminate.
      * apply list_elem_of_here.
Defined.

(** C10 as stated fails: the name written as ['Husk Rot '] (quotes in
    the cell, a blank inside them) and the name [Husk Rot] are equal once
    every surrounding blank and quote is stripped, yet [get_id] gives them
    two identifiers, and the name the query returns still ends with the
    blank. *)
Lemma quoted_blank_is_not_merged :
  strip_all "'Husk Rot '" = strip_all "Husk Rot"
  ∧ (get_id (PyStr "'Husk Rot '") quoted_kb).1 = Ret (Some 1)
  ∧ (get_id (PyStr "Husk Rot")
       (get_id (PyStr "'Husk Rot '") quoted_kb).2).1 = Ret (Some 4)
  ∧ (diseasesWith (Some "leaf spot") quoted_kb).1 = Ret ["Husk Rot "]
  ∧ strip_all "Husk Rot " ≠ "Husk Rot ".
Proof. repeat split; try (vm_compute; reflexivity). discriminate. Qed.

(** ** Growing the table *)

Lemma later_refl st : later st st.
Proof. unfold later. split; [reflexivity|]. split; [lia|]. done. Qed.

Lemma load_row_later literal_eval st0 r st :
  later st0 st -> later st0 (load_row literal_eval r st).
Proof.
  apply (load_row_steps literal_eval (later st0)).
  - intros n st1 (Hg & Hc & Hh & Ht) Hn. unfold later. cbn.
    split; [etrans; [exact Hg | by apply intern_grows]|].
    split; [lia|]. done.
  - intros p st1 (Hg & Hc & Hh & Ht). unfold later. cbn.
    split; [done|]. split; [done|]. split; [|done].
    intros x Hx. apply elem_of_app. left. by apply Hh.
  - intros p st1 (Hg & Hc & Hh & Ht). unfold later. cbn.
    split; [done|]. split; [done|]. split; [done|].
    intros x Hx. apply elem_of_app. left. by apply Ht.
  - by intros t st1.
  - by intros t st1.
Qed.

Lemma fold_load_later literal_eval rows st :
  later st (fold_left (fun st r => load_row literal_eval r st) rows st).
Proof.
  assert (∀ st0 st1, later st0 st1 ->
            later st0 (fold_left (fun st r => load_row literal_eval r st)
                         rows st1)) as H.
  { induction rows as [|r rows IH]; intros st0 st1 Hl; cbn; [done|].
    by apply IH, load_row_later. }
  apply H, later_refl.
Qed.

Lemma related_later o st st' n x :
  later st st' -> related o st n x -> related o st' n x.
Proof.
  intros (Hg & _ & Hh & Ht).
  assert (∀ d s, has st d s -> has st' d s) as Hhas.
  { intros d s (a & b & ? & ? & ?). exists a, b.
    split; [by eapply grows_lookup|]. split; [by eapply grows_lookup|].
    by apply Hh. }
  assert (∀ t d, treats st t d -> treats st' t d) as Htreats.
  { intros t d (a & b & ? & ? & ?). exists a, b.
    split; [by eapply grows_lookup|]. split; [by eapply grows_lookup|].
    by apply Ht. }
  destruct o; cbn; [by apply Hhas | by apply Htreats | by apply Hhas |].
  intros (d & ? & ?). exists d. split; [by apply Htreats | by apply Hhas].
Qed.

(** X12. Adding rows at the end of the table never removes an answer: every
    name an operation returns on the table it also returns on the longer
    table. *)
Theorem more_rows_keep_answers (literal_eval : string -> option pyval)
    (rows more : list row) (o : op) (s : string) :
  counter (load_rows literal_eval (rows ++ more)) < 2 ^ 32 ->
  s ≠ EmptyString ->
  ∃ l l',
    (run_op o (Some s) (load_rows literal_eval rows)).1 = Ret l
    ∧ (run_op o (Some s) (load_rows literal_eval (rows ++ more))).1 = Ret l'
    ∧ l ⊆ l'.
Proof.
  intros Hb Hs.
  pose proof (load_rows_inv literal_eval rows) as Hinv.
  pose proof (load_rows_inv literal_eval (rows ++ more)) as Hinv'.
  assert (later (load_rows literal_eval rows)
            (load_rows literal_eval (rows ++ more))) as Hl.
  { unfold load_rows. rewrite fold_left_app. apply fold_load_later. }
  assert (counter (load_rows literal_eval rows) < 2 ^ 32) as Hb0.
  { destruct Hl as (_ & ? & _). lia. }
  destruct (run_op_spec o s _ Hinv Hb0 Hs) as (X & st1 & -> & HX & _).
  destruct (run_op_spec o s _ Hinv' Hb Hs) as (X' & st1' & -> & HX' & _).
  exists (sorted X), (sorted X'). split; [done|]. split; [done|].
  intros x. rewrite !elem_of_sorted, HX, HX'. by apply related_later.
Qed.

Lemma more_rows_keep_answers_witness :
  ∃ l l',
    (run_op DiseasesWith (Some "leaf spot")
       (load_rows Literal.literal_eval spec_table)).1 = Ret l
    ∧ (run_op DiseasesWith (Some "leaf spot")
         (load_rows Literal.literal_eval (spec_table ++ rust_table))).1
      = Ret l'
    ∧ l ⊆ l'.
Proof.
  apply (more_rows_keep_answers Literal.literal_eval spec_table rust_table).
  - vm_compute. reflexivity.
  - discriminate.
Defined.

(** ** The relations are what the table lists *)

Lemma load_cell_items literal_eval cell body st :
  load_cell literal_eval cell body st
  = (for_each body (cell_items literal_eval cell) st).2.
Proof.
  unfold load_cell, cell_items. destruct cell as [text|]; [|done].
  destruct (String.eqb text EmptyString); [done|].
  destruct (literal_eval text) as [v|]; [|done].
  by destruct (iter v).
Qed.

Lemma for_each_symptom_facts a items st :
  grows st (for_each (symptom_body (Some a)) items st).2
  ∧ treated_with (for_each (symptom_body (Some a)) items st).2
    = treated_with st
  ∧ (∀ s, s ∈ accepted items ->
       is_Some (str_to_id (for_each (symptom_body (Some a)) items st).2
                  !! clean s))
  ∧ (∀ p, p ∈ has_symptom (for_each (symptom_body (Some a)) items st).2
          ↔ p ∈ has_symptom st
            ∨ ∃ s v, s ∈ accepted items
                     ∧ str_to_id (for_each (symptom_body (Some a)) items st).2
                         !! clean s = Some v
                     ∧ p = (a, v)).
Proof.
  revert st. induction items as [|x items IH]; intros st.
  - cbn. split; [reflexivity|]. split; [done|].
    split; [by intros s ?%elem_of_nil|]. intros p. split; [by left|].
    intros [?|(s & v & ?%elem_of_nil & _)]; done.
  - destruct (element_name x) as [t|] eqn:Hx.
    + assert (for_each (symptom_body (Some a)) (x :: items) st
              = for_each (symptom_body (Some a)) items
                  (add_symptom t
                     (add_has_symptom
                        (a, (lookup_or_intern (clean t) st).1)
                        (lookup_or_intern (clean t) st).2))) as ->.
      { cbn. unfold bind.
        by rewrite (symptom_body_element (Some a) x t st Hx). }
      cbn [accepted]. rewrite Hx.
      pose proof (lookup_or_intern_grows (clean t) st) as Hg0.
      pose proof (lookup_or_intern_lookup (clean t) st) as Hv.
      destruct (lookup_or_intern_same_records (clean t) st)
        as (Hh0 & Ht0 & _).
      set (v := (lookup_or_intern (clean t) st).1) in *.
      set (st0 := (lookup_or_intern (clean t) st).2) in *.
      specialize (IH (add_symptom t (add_has_symptom (a, v) st0))).
      destruct IH as (Hg & Ht & Hreg & Hfacts).
      set (st' := (for_each (symptom_body (Some a)) items
                     (add_symptom t (add_has_symptom (a, v) st0))).2) in *.
      assert (str_to_id st' !! clean t = Some v) as Hv'.
      { by apply (grows_lookup _ _ _ _ Hg). }
      split; [etrans; [exact Hg0 | exact Hg]|].
      split; [by rewrite Ht|]. split.
      * intros s [-> | Hs]%elem_of_cons; [by eexists | by apply Hreg].
      * intros p. rewrite Hfacts. cbn [has_symptom add_symptom add_has_symptom].
        rewrite elem_of_app, list_elem_of_singleton, Hh0. split.
        -- intros [[? | ->] | (s & w & Hs & Hw & ->)].
           ++ by left.
           ++ right. exists t, v. split; [by left | done].
           ++ right. exists s, w. split; [by right | done].
        -- intros [? | (s & w & [-> | Hs]%elem_of_cons & Hw & ->)].
           ++ by left; left.
           ++ left; right. congruence.
           ++ right. by exists s, w.
    + assert (for_each (symptom_body (Some a)) (x :: items) st
              = (Raise (match symptom_body (Some a) x st with
                        | (Raise e, _) => e
                        | _ => Z3Exception
                        end), st)) as ->.
      { cbn. unfold bind.
        by destruct (symptom_body_stop (Some a) x st Hx) as [e ->]. }
      cbn [accepted snd]. rewrite Hx.
      split; [reflexivity|]. split; [done|].
      split; [by intros s ?%elem_of_nil|]. intros p. split; [by left|].
      intros [?|(s & v & ?%elem_of_nil & _)]; done.
Qed.

Lemma for_each_treatment_facts a items st :
  grows st (for_each (treatment_body (Some a)) items st).2
  ∧ has_symptom (for_each (treatment_body (Some a)) items st).2
    = has_symptom st
  ∧ (∀ t, t ∈ accepted items ->
       is_Some (str_to_id (for_each (treatment_body (Some a)) items st).2
                  !! clean t))
  ∧ (∀ p, p ∈ treated_with (for_each (treatment_body (Some a)) items st).2
          ↔ p ∈ treated_with st
            ∨ ∃ t v, t ∈ accepted items
                     ∧ str_to_id
                         (for_each (treatment_body (Some a)) items st).2
                         !! clean t = Some v
                     ∧ p = (v, a)).
Proof.
  revert st. induction items as [|x items IH]; intros st.
  - cbn. split; [reflexivity|]. split; [done|].
    split; [by intros s ?%elem_of_nil|]. intros p. split; [by left|].
    intros [?|(s & v & ?%elem_of_nil & _)]; done.
  - destruct (element_name x) as [t|] eqn:Hx.
    + assert (for_each (treatment_body (Some a)) (x :: items) st
              = for_each (treatment_body (Some a)) items
                  (add_treated_with
                     ((lookup_or_intern (clean t) st).1, a)
                     (lookup_or_intern (clean t) st).2)) as ->.
      { cbn. unfold bind.
        by rewrite (treatment_body_element (Some a) x t st Hx). }
      cbn [accepted]. rewrite Hx.
      pose proof (lookup_or_intern_grows (clean t) st) as Hg0.
      pose proof (lookup_or_intern_lookup (clean t) st) as Hv.
      destruct (lookup_or_intern_same_records (clean t) st)
        as (Hh0 & Ht0 & _).
      set (v := (lookup_or_intern (clean t) st).1) in *.
      set (st0 := (lookup_or_intern (clean t) st).2) in *.
      specialize (IH (add_treated_with (v, a) st0)).
      destruct IH as (Hg & Hh & Hreg & Hfacts).
      set (st' := (for_each (treatment_body (Some a)) items
                     (add_treated_with (v, a) st0)).2) in *.
      assert (str_to_id st' !! clean t = Some v) as Hv'.
      { by apply (grows_lookup _ _ _ _ Hg). }
      split; [etrans; [exact Hg0 | exact Hg]|].
      split; [by rewrite Hh|]. split.
      * intros s [-> | Hs]%elem_of_cons; [by eexists | by apply Hreg].
      * intros p. rewrite Hfacts. cbn [treated_with add_treated_with].
        rewrite elem_of_app, list_elem_of_singleton, Ht0. split.
        -- intros [[? | ->] | (s & w & Hs & Hw & ->)].
           ++ by left.
           ++ right. exists t, v. split; [by left | done].
           ++ right. exists s, w. split; [by right | done].
        -- intros [? | (s & w & [-> | Hs]%elem_of_cons & Hw & ->)].
           ++ by left; left.
           ++ left; right. congruence.
           ++ right. by exists s, w.
    + assert (for_each (treatment_body (Some a)) (x :: items) st
              = (Raise (match treatment_body (Some a) x st with
                        | (Raise e, _) => e
                        | _ => Z3Exception
                        end), st)) as ->.
      { cbn. unfold bind.
        by destruct (treatment_body_stop (Some a) x st Hx) as [e ->]. }
      cbn [accepted snd]. rewrite Hx.
      split; [reflexivity|]. split; [done|].
      split; [by intros s ?%elem_of_nil|]. intros p. split; [by left|].
      intros [?|(s & v & ?%elem_of_nil & _)]; done.
Qed.

Lemma row_start_named r st :
  row_name r ≠ EmptyString ->
  ∃ a, (row_start r st).1 = Some a
       ∧ str_to_id (row_start r st).2 !! clean (row_name r) = Some a
       ∧ grows st (row_start r st).2
       ∧ has_symptom (row_start r st).2 = has_symptom st
       ∧ treated_with (row_start r st).2 = treated_with st.
Proof.
  intros Hne. destruct (row_start_registered r st Hne) as (a & Ha & Hl).
  exists a. split; [done|]. split; [done|].
  destruct (row_start_extends r st) as (Hg & _). split; [done|].
  unfold row_start. rewrite string_eqb_empty by done. cbn.
  by destruct (lookup_or_intern_same_records (clean (row_name r)) st)
    as (? & ? & _).
Qed.

Lemma load_row_facts literal_eval r st :
  (∀ p, p ∈ has_symptom (load_row literal_eval r st)
        ↔ p ∈ has_symptom st
          ∨ ∃ a s v,
              str_to_id (load_row literal_eval r st) !! clean (row_name r)
              = Some a
              ∧ s ∈ listed literal_eval r (row_symptoms r)
              ∧ str_to_id (load_row literal_eval r st) !! clean s = Some v
              ∧ p = (a, v))
  ∧ (∀ p, p ∈ treated_with (load_row literal_eval r st)
          ↔ p ∈ treated_with st
            ∨ ∃ a t v,
                str_to_id (load_row literal_eval r st) !! clean (row_name r)
                = Some a
                ∧ t ∈ listed literal_eval r (row_treatments r)
                ∧ str_to_id (load_row literal_eval r st) !! clean t = Some v
                ∧ p = (v, a))
  ∧ (∀ s, s ∈ listed literal_eval r (row_symptoms r)
          ∨ s ∈ listed literal_eval r (row_treatments r) ->
          is_Some (str_to_id (load_row literal_eval r st) !! clean s)
          ∧ is_Some (str_to_id (load_row literal_eval r st)
                       !! clean (row_name r))).
Proof.
  rewrite load_row_unfold. unfold listed.
  destruct (String.eqb_spec (row_name r) EmptyString) as [E|E].
  - assert (row_start r st = (None, add_disease EmptyString st)) as ->.
    { unfold row_start. by rewrite E. }
    cbn [fst snd].
    destruct (load_cell_without_disease literal_eval (row_symptoms r)
                symptom_body (add_disease EmptyString st))
      as [(H1 & H2 & _) _]; [by left|].
    revert H1 H2.
    generalize (load_cell literal_eval (row_symptoms r) (symptom_body None)
                  (add_disease EmptyString st)).
    intros st1 H1 H2.
    destruct (load_cell_without_disease literal_eval (row_treatments r)
                treatment_body st1) as [(G1 & G2 & _) _]; [by right|].
    cbn in H1, H2. rewrite G1, G2, H1, H2.
    split; [|split].
    + intros p. split; [by left|].
      intros [?|(a & s & v & _ & ?%elem_of_nil & _)]; done.
    + intros p. split; [by left|].
      intros [?|(a & s & v & _ & ?%elem_of_nil & _)]; done.
    + by intros s [?%elem_of_nil | ?%elem_of_nil].
  - destruct (row_start_named r st E) as (a & -> & Ha & Hg0 & Hh0 & Ht0).
    rewrite !load_cell_items.
    generalize dependent (row_start r st).2. intros st0 Ha Hg0 Hh0 Ht0.
    destruct (for_each_symptom_facts a
                (cell_items literal_eval (row_symptoms r)) st0)
      as (Hg1 & Ht1 & Hreg1 & Hf1).
    generalize dependent
      (for_each (symptom_body (Some a))
         (cell_items literal_eval (row_symptoms r)) st0).2.
    intros st1 Hg1 Ht1 Hreg1 Hf1.
    destruct (for_each_treatment_facts a
                (cell_items literal_eval (row_treatments r)) st1)
      as (Hg2 & Hh2 & Hreg2 & Hf2).
    generalize dependent
      (for_each (treatment_body (Some a))
         (cell_items literal_eval (row_treatments r)) st1).2.
    intros st2 Hg2 Hh2 Hreg2 Hf2.
    assert (str_to_id st2 !! clean (row_name r) = Some a) as Ha2.
    { eapply grows_lookup; [exact Hg2|]. by eapply grows_lookup. }
    split; [|split].
    + intros p. rewrite Hh2, Hf1, Hh0. split.
      * intros [? | (s & v & Hs & Hv & ->)]; [by left|]. right.
        exists a, s, v. split; [done|]. split; [done|].
        split; [by eapply grows_lookup | done].
      * intros [? | (a' & s & v & Ha' & Hs & Hv & ->)]; [by left|]. right.
        assert (a' = a) as -> by congruence.
        destruct (Hreg1 s Hs) as [v1 Hv1].
        assert (v = v1) as ->.
        { pose proof (grows_lookup _ _ _ _ Hg2 Hv1). congruence. }
        by exists s, v1.
    + intros p. rewrite Hf2, Ht1, Ht0. split.
      * intros [? | (t & v & Hs & Hv & ->)]; [by left|]. right.
        by exists a, t, v.
      * intros [? | (a' & t & v & Ha' & Hs & Hv & ->)]; [by left|]. right.
        assert (a' = a) as -> by congruence. by exists t, v.
    + intros s Hs. split; [|by eexists].
      destruct Hs as [Hs | Hs]; [|by apply Hreg2].
      eapply grows_is_Some; [exact Hg2 | by apply Hreg1].
Qed.

Lemma has_later st st' d s : later st st' -> has st d s -> has st' d s.
Proof. intros Hl. apply (related_later SymptomsOf st st' d s Hl). Qed.

Lemma treats_later st st' t d :
  later st st' -> treats st t d -> treats st' t d.
Proof. intros Hl. apply (related_later TreatmentsOf st st' d t Hl). Qed.

Lemma load_row_names literal_eval r st :
  kb_inv st -> counter (load_row literal_eval r st) ≤ 2 ^ 32 ->
  (∀ d s, has (load_row literal_eval r st) d s
          ↔ has st d s
            ∨ (d = clean (row_name r)
               ∧ ∃ s0, s0 ∈ listed literal_eval r (row_symptoms r)
                       ∧ s = clean s0))
  ∧ (∀ t d, treats (load_row literal_eval r st) t d
            ↔ treats st t d
              ∨ (d = clean (row_name r)
                 ∧ ∃ t0, t0 ∈ listed literal_eval r (row_treatments r)
                         ∧ t = clean t0)).
Proof.
  intros Hinv Hb.
  pose proof (load_row_inv literal_eval r st Hinv) as Hinv'.
  pose proof (load_row_later literal_eval st r st (later_refl st)) as Hl.
  destruct (load_row_facts literal_eval r st) as (Hh & Ht & Hreg).
  generalize dependent (load_row literal_eval r st).
  intros st' Hb Hinv' Hl Hh Ht Hreg.
  assert (∀ n v, is_id st v -> str_to_id st' !! n = Some v ->
                 str_to_id st !! n = Some v) as Hback.
  { intros n v [m Hm] Hn. destruct Hl as (Hg & _).
    pose proof (grows_lookup _ _ _ _ Hg Hm) as Hm'.
    by rewrite (str_to_id_inj st' n m v Hinv' Hb Hn Hm'). }
  split.
  - intros d s. split.
    + intros (a & b & Ha & Hb' & Hf). apply Hh in Hf
        as [Hf | (a0 & s0 & v & Ha0 & Hs0 & Hv & [= -> ->])].
      * left. destruct (inv_has_symptom st Hinv _ Hf) as [Hia Hib].
        exists a, b. split; [by apply Hback|]. split; [by apply Hback|done].
      * right. split.
        -- by apply (str_to_id_inj st' _ _ a0 Hinv' Hb).
        -- exists s0. split; [done|].
           by apply (str_to_id_inj st' _ _ v Hinv' Hb).
    + intros [Hold | (-> & s0 & Hs0 & ->)]; [by eapply has_later|].
      destruct (Hreg s0 (or_introl Hs0)) as [[v Hv] [a Ha]].
      exists a, v. split; [done|]. split; [done|].
      apply Hh. right. by exists a, s0, v.
  - intros t d. split.
    + intros (a & b & Ha & Hb' & Hf). apply Ht in Hf
        as [Hf | (a0 & t0 & v & Ha0 & Hs0 & Hv & [= -> ->])].
      * left. destruct (inv_treated_with st Hinv _ Hf) as [Hia Hib].
        exists a, b. split; [by apply Hback|]. split; [by apply Hback|done].
      * right. split.
        -- by apply (str_to_id_inj st' _ _ a0 Hinv' Hb).
        -- exists t0. split; [done|].
           by apply (str_to_id_inj st' _ _ v Hinv' Hb).
    + intros [Hold | (-> & t0 & Hs0 & ->)]; [by eapply treats_later|].
      destruct (Hreg t0 (or_intror Hs0)) as [[v Hv] [a Ha]].
      exists v, a. split; [done|]. split; [done|].
      apply Ht. right. by exists a, t0, v.
Qed.

Lemma fold_load_names literal_eval rows st :
  kb_inv st ->
  counter (fold_left (fun st r => load_row literal_eval r st) rows st)
  ≤ 2 ^ 32 ->
  (∀ d s, has (fold_left (fun st r => load_row literal_eval r st) rows st) d s
          ↔ has st d s ∨ table_has literal_eval rows d s)
  ∧ (∀ t d,
       treats (fold_left (fun st r => load_row literal_eval r st) rows st) t d
       ↔ treats st t d ∨ table_treats literal_eval rows t d).
Proof.
  revert st. induction rows as [|r rows IH]; intros st Hinv Hb.
  - cbn. split.
    + intros d s. split; [by left|].
      intros [?|(r & s0 & ?%elem_of_nil & _)]; done.
    + intros t d. split; [by left|].
      intros [?|(r & s0 & ?%elem_of_nil & _)]; done.
  - cbn [fold_left] in *.
    pose proof (fold_load_later literal_eval rows
                  (load_row literal_eval r st)) as (_ & Hc & _).
    destruct (IH (load_row literal_eval r st)) as [IHh IHt];
      [by apply load_row_inv | done |].
    destruct (load_row_names literal_eval r st Hinv) as [Hh Ht]; [lia|].
    split.
    + intros d s. rewrite IHh, Hh. unfold table_has. split.
      * intros [[? | (-> & s0 & ? & ->)] | (r' & s0 & ? & ? & ? & ?)].
        -- by left.
        -- right. exists r, s0. split; [by left | done].
        -- right. exists r', s0. split; [by right | done].
      * intros [? | (r' & s0 & [-> | ?]%elem_of_cons & ? & ? & ?)].
        -- by left; left.
        -- left; right. split; [done|]. by exists s0.
        -- right. by exists r', s0.
    + intros t d. rewrite IHt, Ht. unfold table_treats. split.
      * intros [[? | (-> & s0 & ? & ->)] | (r' & s0 & ? & ? & ? & ?)].
        -- by left.
        -- right. exists r, s0. split; [by left | done].
        -- right. exists r', s0. split; [by right | done].
      * intros [? | (r' & s0 & [-> | ?]%elem_of_cons & ? & ? & ?)].
        -- by left; left.
        -- left; right. split; [done|]. by exists s0.
        -- right. by exists r', s0.
Qed.

(** X11. The answers are what the table lists.  After loading, an operation
    asked about a non-empty name returns exactly the names the table
    relates to its cleaned form: for [symptomsOf(d)], the cleaned symptoms
    that the rows named like [d] list before their first element that is
    not a non-empty string; likewise for the other three, with the
    treatments of a symptom found through the diseases that list it. *)
Theorem answers_are_the_table (literal_eval : string -> option pyval)
    (rows : list row) (o : op) (n : string) :
  counter (load_rows literal_eval rows) < 2 ^ 32 ->
  n ≠ EmptyString ->
  ∃ l, (run_op o (Some n) (load_rows literal_eval rows)).1 = Ret l
       ∧ ∀ x, x ∈ l ↔ table_related literal_eval rows o (clean n) x.
Proof.
  intros Hb Hn.
  pose proof (load_rows_inv literal_eval rows) as Hinv.
  destruct (fold_load_names literal_eval rows init init_inv) as [Hh Ht].
  { fold (load_rows literal_eval rows). lia. }
  fold (load_rows literal_eval rows) in Hh, Ht.
  assert (∀ d s, has (load_rows literal_eval rows) d s
                 ↔ table_has literal_eval rows d s) as Hh'.
  { intros d s. rewrite Hh. split; [|by right].
    intros [(a & b & Ha & _) | ?]; [|done]. cbn in Ha.
    by rewrite lookup_empty in Ha. }
  assert (∀ t d, treats (load_rows literal_eval rows) t d
                 ↔ table_treats literal_eval rows t d) as Ht'.
  { intros t d. rewrite Ht. split; [|by right].
    intros [(a & b & Ha & _) | ?]; [|done]. cbn in Ha.
    by rewrite lookup_empty in Ha. }
  destruct (run_op_spec o n _ Hinv Hb Hn) as (X & st' & -> & HX & _).
  exists (sorted X). split; [done|]. intros x. rewrite elem_of_sorted, HX.
  destruct o; cbn [related table_related].
  - apply Hh'.
  - apply Ht'.
  - apply Hh'.
  - split; intros (d & ? & ?); exists d; split;
      (by apply Ht' || by apply Hh').
Qed.

Lemma answers_are_the_table_witness :
  ∃ l, (run_op SymptomsOf (Some " Rust ")
          (load_rows Literal.literal_eval rust_table)).1 = Ret l
       ∧ ∀ x, x ∈ l
              ↔ table_related Literal.literal_eval rust_table SymptomsOf
                  (clean " Rust ") x.
Proof.
  apply (answers_are_the_table Literal.literal_eval rust_table).
  - vm_compute. reflexivity.
  - discriminate.
Defined.

Lemma load_rows_related literal_eval rows o n x :
  counter (load_rows literal_eval rows) ≤ 2 ^ 32 ->
  related o (load_rows literal_eval rows) n x
  ↔ table_related literal_eval rows o n x.
Proof.
  intros Hb.
  destruct (fold_load_names literal_eval rows init init_inv) as [Hh Ht];
    [done|].
  fold (load_rows literal_eval rows) in Hh, Ht.
  assert (∀ d s, has (load_rows literal_eval rows) d s
                 ↔ table_has literal_eval rows d s) as Hh'.
  { intros d s. rewrite Hh. split; [|by right].
    intros [(a & b & Ha & _) | ?]; [|done]. cbn in Ha.
    by rewrite lookup_empty in Ha. }
  assert (∀ t d, treats (load_rows literal_eval rows) t d
                 ↔ table_treats literal_eval rows t d) as Ht'.
  { intros t d. rewrite Ht. split; [|by right].
    intros [(a & b & Ha & _) | ?]; [|done]. cbn in Ha.
    by rewrite lookup_empty in Ha. }
  destruct o; cbn [related table_related];
    [apply Hh' | apply Ht' | apply Hh' |].
  split; intros (d & ? & ?); exists d; split;
    (by apply Ht' || by apply Hh').
Qed.

Lemma table_related_same_rows literal_eval rows rows' o n x :
  (∀ r, r ∈ rows ↔ r ∈ rows') ->
  table_related literal_eval rows o n x ->
  table_related literal_eval rows' o n x.
Proof.
  intros Hsame.
  assert (∀ d s, table_has literal_eval rows d s ->
                 table_has literal_eval rows' d s) as Hh.
  { intros d s (r & s0 & ?%Hsame & ?). by exists r, s0. }
  assert (∀ t d, table_treats literal_eval rows t d ->
                 table_treats literal_eval rows' t d) as Ht.
  { intros t d (r & s0 & ?%Hsame & ?). by exists r, s0. }
  destruct o; cbn; [by apply Hh | by apply Ht | by apply Hh |].
  intros (d & ? & ?). exists d. split; [by apply Ht | by apply Hh].
Qed.

(** X13. The order of the rows does not matter, nor does a repeated row: two
    tables with the same rows give the same answer to every query, although
    they number the names differently. *)
Theorem row_order_is_irrelevant (literal_eval : string -> option pyval)
    (rows rows' : list row) (o : op) (n : string) :
  (∀ r, r ∈ rows ↔ r ∈ rows') ->
  counter (load_rows literal_eval rows) < 2 ^ 32 ->
  counter (load_rows literal_eval rows') < 2 ^ 32 ->
  n ≠ EmptyString ->
  ∃ l, (run_op o (Some n) (load_rows literal_eval rows)).1 = Ret l
       ∧ (run_op o (Some n) (load_rows literal_eval rows')).1 = Ret l.
Proof.
  intros Hsame Hb Hb' Hn.
  destruct (run_op_spec o n _ (load_rows_inv literal_eval rows) Hb Hn)
    as (X & st1 & -> & HX & _).
  destruct (run_op_spec o n _ (load_rows_inv literal_eval rows') Hb' Hn)
    as (X' & st1' & -> & HX' & _).
  exists (sorted X). split; [done|]. cbn [fst]. do 2 f_equal.
  apply set_eq. intros x.
  rewrite HX, HX', !load_rows_related by lia.
  split; apply table_related_same_rows; [symmetry|]; apply Hsame.
Qed.

Lemma row_order_is_irrelevant_witness :
  ∃ l, (run_op TreatmentsFor (Some "leaf spot")
          (load_rows Literal.literal_eval spec_table)).1 = Ret l
       ∧ (run_op TreatmentsFor (Some "leaf spot")
            (load_rows Literal.literal_eval (reverse spec_table))).1 = Ret l.
Proof.
  apply (row_order_is_irrelevant Literal.literal_eval spec_table
           (reverse spec_table)).
  - intros r. by rewrite elem_of_reverse.
  - vm_compute. reflexivity.
  - vm_compute. reflexivity.
  - discriminate.
Defined.

Lemma offered_symptom_answers st s :
  kb_inv st -> kb_link st -> s ∈ all_symptoms st ->
  s ≠ EmptyString
  ∧ ∃ v, str_to_id st !! clean s = Some v
         ∧ sorted (names st (answers DiseasesWith st v)) ≠ [].
Proof.
  intros Hinv Hlink Hs.
  destruct (inv_all_symptoms _ Hinv s Hs) as [Hne _].
  destruct (link_symptom _ Hlink s Hs) as (a & v & Hv & Hf).
  split; [done|]. exists v. split; [done|].
  rewrite sorted_names_nil. intros E.
  assert (a ∈ answers DiseasesWith st v) as Hin.
  { cbn [answers]. by apply elem_of_select_fst. }
  rewrite E in Hin. by apply elem_of_nil in Hin.
Qed.

(** X18. The warning "Unknown disease." is never rendered for anything the
    page can send: an offered symptom always has a disease, and a press
    without a selection ends in the exception before the warning. *)
Theorem unknown_disease_never_shown (literal_eval : string -> option pyval)
    (rows : list row) (ev : event) :
  offered (load_rows literal_eval rows) ev ->
  st_warning "Unknown disease."
  ∉ (handle ev (load_rows literal_eval rows)).1.
Proof.
  pose proof (load_rows_inv literal_eval rows) as Hinv.
  pose proof (load_rows_link literal_eval rows) as Hlink.
  generalize dependent (load_rows literal_eval rows). intros st Hinv Hlink.
  destruct ev as [|sel|sel]; cbn [handle offered].
  - intros _. apply not_elem_of_nil.
  - intros [-> | (s & -> & Hs%elem_of_symptoms)]; [set_solver|].
    destruct (offered_symptom_answers st s Hinv Hlink Hs)
      as (Hne & v & Hv & Hans).
    rewrite on_diagnose_known by done. cbn [fst].
    rewrite (lookup_or_intern_known _ v) by done. cbn [fst snd].
    destruct (sorted (names st (answers DiseasesWith st v))) as [|d ds];
      [done|].
    unfold diagnosis_page. rewrite not_elem_of_cons. split; [done|].
    rewrite not_elem_of_app. split.
    + intros (x & Hx & _)%list_elem_of_fmap. discriminate.
    + rewrite not_elem_of_cons. split; [|apply not_elem_of_nil].
      by destruct (sorted (names st (answers TreatmentsFor st v))).
  - intros Hsel.
    assert (sel = None ∨ sel = Some EmptyString
            ∨ ∃ d, sel = Some d ∧ d ≠ EmptyString) as [-> | [-> | (d & -> & Hd)]].
    { destruct sel as [d|]; [|by left]. right.
      destruct (String.eqb_spec d EmptyString) as [->|]; [by left|].
      right. by exists d. }
    + set_solver.
    + set_solver.
    + rewrite on_get_info_known by done. cbn [fst]. unfold info_page.
      generalize (sorted (names (lookup_or_intern (clean d) st).2
                    (answers SymptomsOf (lookup_or_intern (clean d) st).2
                       (lookup_or_intern (clean d) st).1))).
      generalize (sorted (names (lookup_or_intern (clean d) st).2
                    (answers TreatmentsOf (lookup_or_intern (clean d) st).2
                       (lookup_or_intern (clean d) st).1))).
      intros ts ss. rewrite !not_elem_of_cons. split; [done|].
      split; [done|]. rewrite not_elem_of_app. split.
      * destruct ss; [set_solver|].
        intros (x & Hx & _)%list_elem_of_fmap. discriminate.
      * rewrite not_elem_of_cons. split; [done|].
        destruct ts; [set_solver|].
        intros (x & Hx & _)%list_elem_of_fmap. discriminate.
Qed.

Lemma unknown_disease_never_shown_witness :
  st_warning "Unknown disease."
  ∉ (handle (DiagnoseProblem (Some "dieback")) spec_kb).1.
Proof.
  apply (unknown_disease_never_shown Literal.literal_eval spec_table).
  right. exists "dieback". split; [done|]. vm_compute.
  apply list_elem_of_here.
Defined.
